(** * Correspondent-name normalisation and the v14.2 workflow patch

    A shallow embedding of [scripts/workflow-builders/apply_v14.2_fixes.py].

    The script carries two programs:

    - the JavaScript of [NORMALIZATION_CODE] ([normalizeCorrespondent] and
      [generateSlug]), which the script stores in the workflow as the code of
      the node 'Generate Storage Path' (module [JS] below);
    - the Python function [apply_fixes], which patches the nodes of a
      workflow loaded from JSON (module [Py] below).

    The JavaScript is written inside a Python string literal that is not a
    raw string.  Python reads two backslashes of the file as one, so the
    four backslashes the file has before [s], [b], [w] and [u] reach the
    JavaScript as two, and the eight of [suffixRe] as four.  In a
    JavaScript regular-expression literal two backslashes are an escaped
    backslash: the text the workflow receives for the second [replace] is
    slash, backslash, backslash, s, star, ampersand, ..., a pattern that
    matches a backslash character, then any number of letters s, then an
    ampersand, a backslash and again letters s.  The regular expressions
    below are the ones the JavaScript engine is given, read off that text. *)

From Stdlib Require Import NArith ZArith Lia Ascii String.
From stdpp Require Import base list strings gmap.

Module JS.

(** ** Strings

    A JavaScript string is a sequence of UTF-16 code units. *)
Definition str := list N.

(** The code units of an ASCII literal. *)
Definition js (s : string) : str :=
  map N_of_ascii (list_ascii_of_string s).

Fixpoint startsWith (s key : str) : bool :=
  match key, s with
  | [], _ => true
  | k :: key', c :: s' => (c =? k)%N && startsWith s' key'
  | _ :: _, [] => false
  end.

(** ECMAScript WhiteSpace and LineTerminator code units, the set that
    [String.prototype.trim] removes. *)
Definition isWhiteSpace (c : N) : bool :=
  ((9 <=? c) && (c <=? 13) || (c =? 32) || (c =? 160) || (c =? 5760)
   || (8192 <=? c) && (c <=? 8202) || (c =? 8232) || (c =? 8233)
   || (c =? 8239) || (c =? 8287) || (c =? 12288) || (c =? 65279))%N.

Fixpoint trimStart (s : str) : str :=
  match s with
  | c :: s' => if isWhiteSpace c then trimStart s' else s
  | [] => []
  end.

Definition trimEnd (s : str) : str := reverse (trimStart (reverse s)).

Definition trim (s : str) : str := trimEnd (trimStart s).

(** [s.substring(0, n)] *)
Definition substring0 (n : nat) (s : str) : str := take n s.

(** ** Regular expressions

    The fragment of the ECMAScript pattern language that the program uses:
    literal characters, character classes, the greedy quantifiers on a
    single character or class, sequence, alternation and the two anchors.
    Groups only bracket an alternation here and are not represented. *)
Inductive atom :=
| AChar (c : N)
| AClass (negated : bool) (ranges : list (N * N)).

Inductive regex :=
| RAtom (a : atom)
| RStar (a : atom)
| RPlus (a : atom)
| ROpt (a : atom)
| RSeq (r1 r2 : regex)
| RAlt (r1 r2 : regex)
| REps
| RBol
| REol.

(** Canonicalize of the ECMAScript specification, for patterns without the
    u flag, on the all-ASCII patterns of this program: a code unit from 128
    on never canonicalises to an ASCII one, so comparing under the ASCII
    folding is exact. *)
Definition canonicalize (c : N) : N :=
  if ((97 <=? c) && (c <=? 122))%N then (c - 32)%N else c.

Definition uncanonicalize (c : N) : N :=
  if ((65 <=? c) && (c <=? 90))%N then (c + 32)%N else c.

Definition in_ranges (ranges : list (N * N)) (c : N) : bool :=
  existsb (fun r => (fst r <=? c) && (c <=? snd r))%N ranges.

Definition atom_ok (icase : bool) (a : atom) (c : N) : bool :=
  match a with
  | AChar p =>
      if icase then (canonicalize c =? canonicalize p)%N else (c =? p)%N
  | AClass negated ranges =>
      let hit :=
        in_ranges ranges c
        || icase && (in_ranges ranges (canonicalize c)
                     || in_ranges ranges (uncanonicalize c)) in
      xorb negated hit
  end.

(** The ways a greedy star can stop, longest first; each result is the
    input that remains after the match. *)
Fixpoint star_matches (p : N -> bool) (s : str) : list str :=
  match s with
  | c :: s' => if p c then star_matches p s' ++ [s] else [s]
  | [] => [[]]
  end.

Definition one_match (p : N -> bool) (s : str) : list str :=
  match s with
  | c :: s' => if p c then [s'] else []
  | [] => []
  end.

(** All the ways [r] matches a prefix of [s], in the order the backtracking
    matcher of the ECMAScript specification tries them.  [total] is the
    length of the whole subject, which is how [^] recognises the start. *)
Fixpoint rmatch (icase : bool) (total : nat) (r : regex) (s : str) : list str :=
  match r with
  | RAtom a => one_match (atom_ok icase a) s
  | RStar a => star_matches (atom_ok icase a) s
  | RPlus a =>
      match s with
      | c :: s' =>
          if atom_ok icase a c then star_matches (atom_ok icase a) s' else []
      | [] => []
      end
  | ROpt a => one_match (atom_ok icase a) s ++ [s]
  | RSeq r1 r2 =>
      flat_map (rmatch icase total r2) (rmatch icase total r1 s)
  | RAlt r1 r2 => rmatch icase total r1 s ++ rmatch icase total r2 s
  | REps => [s]
  | RBol => if (length s =? total)%nat then [s] else []
  | REol => match s with [] => [[]] | _ :: _ => [] end
  end.

(** [String.prototype.replace] with a global pattern and a replacement
    function: the leftmost match from the current index is replaced, the
    search resumes after it; after an empty match it resumes one code unit
    later.  [skip] counts the code units of the current match that are
    still to be passed over. *)
Fixpoint replace_go (icase : bool) (total : nat) (r : regex) (f : str -> str)
    (skip : nat) (s : str) : str :=
  match s with
  | [] =>
      match skip with
      | O => match rmatch icase total r [] with
             | _ :: _ => f []
             | [] => []
             end
      | S _ => []
      end
  | c :: s' =>
      match skip with
      | S k => replace_go icase total r f k s'
      | O =>
          match rmatch icase total r s with
          | rest :: _ =>
              match (length s - length rest)%nat with
              | O => f [] ++ c :: replace_go icase total r f 0 s'
              | S k => f (take (S k) s) ++ replace_go icase total r f k s'
              end
          | [] => c :: replace_go icase total r f 0 s'
          end
      end
  end.

Definition replaceAll (icase : bool) (r : regex) (f : str -> str) (s : str) : str :=
  replace_go icase (length s) r f 0 s.

(** Replacement by a fixed string (none of the replacement strings of the
    program contains a dollar sign). *)
Definition replaceWith (icase : bool) (r : regex) (by_ : str) (s : str) : str :=
  replaceAll icase r (fun _ => by_) s.

(** Builders that keep a pattern close to its text. *)
Definition ch (c : ascii) : atom := AChar (N_of_ascii c).

Definition rseq (rs : list regex) : regex := foldr RSeq REps rs.

Definition literal (cs : str) : regex :=
  rseq (map (fun c => RAtom (AChar c)) cs).

Definition lit (s : string) : regex := literal (js s).

Fixpoint ralt (r : regex) (rs : list regex) : regex :=
  match rs with
  | [] => r
  | r' :: rs' => RAlt r (ralt r' rs')
  end.

(** The alternation of the pieces of [pieces.join('|')]. *)
Definition alternation (pieces : list regex) : regex :=
  match pieces with
  | [] => REps
  | r :: rs => ralt r rs
  end.

Definition range (a b : ascii) : N * N := (N_of_ascii a, N_of_ascii b).
Definition only (a : ascii) : N * N := range a a.

(** ** Values

    [normalizeCorrespondent] is called with whatever the previous node put
    in [correspondent_name]; it inspects its argument with [!name] and
    [typeof].  Numbers are never inspected beyond that, so an integer
    stands for them. *)
Inductive value :=
| VUndefined
| VNull
| VBoolean (b : bool)
| VNumber (x : Z)
| VString (s : str)
| VObject.

Inductive type_name :=
| Tundefined | Tobject | Tboolean | Tnumber | Tstring.

Definition typeof (v : value) : type_name :=
  match v with
  | VUndefined => Tundefined
  | VNull => Tobject
  | VBoolean _ => Tboolean
  | VNumber _ => Tnumber
  | VString _ => Tstring
  | VObject => Tobject
  end.

Definition is_string (v : value) : bool :=
  match typeof v with
  | Tstring => true
  | _ => false
  end.

(** ToBoolean *)
Definition truthy (v : value) : bool :=
  match v with
  | VUndefined | VNull => false
  | VBoolean b => b
  | VNumber x => negb (x =? 0)%Z
  | VString s => match s with [] => false | _ :: _ => true end
  | VObject => true
  end.

(** ** The tables of the program *)

(** [LEGAL_SUFFIXES]: each entry is a piece of pattern text; the four
    entries with dots reach the engine as s, escaped dot, a, optional
    escaped dot, and so on. *)
Definition LEGAL_SUFFIXES : list regex :=
  [ lit "gmbh"; lit "kg"; lit "kgaa"; lit "ag"; lit "se"; lit "llc";
    lit "inc"; lit "corp"; lit "corporation";
    lit "ltd"; lit "limited"; lit "plc";
    rseq [lit "s.a"; ROpt (ch ".")];
    rseq [lit "s.r.l"; ROpt (ch ".")];
    rseq [lit "s.p.a"; ROpt (ch ".")];
    lit "bv"; lit "nv"; lit "oy"; lit "ab"; lit "aps"; lit "as"; lit "co";
    lit "company"; lit "rcv";
    lit "ohg"; lit "gbr"; lit "ev"; lit "eg";
    rseq [lit "ges.m.b.h"; ROpt (ch ".")]; lit "stg" ].

(** [ALIASES], in insertion order: none of the keys is an array index, so
    [Object.entries] lists them in the order they are written. *)
Definition ALIASES : list (str * str) :=
  [ (js "boehringer ingelheim rcv & co", js "Boehringer Ingelheim");
    (js "boehringer ingelheim rcv", js "Boehringer Ingelheim");
    (js "magistrat wien-mba f.d. 21. bezirk", js "Magistrat Wien");
    (js "magistrat wien", js "Magistrat Wien");
    (js "wiener linien gmbh & co", js "Wiener Linien");
    (js "magenta telekom", js "Magenta Telekom");
    (js "magenta", js "Magenta Telekom") ].

(** The [for ... of Object.entries(ALIASES)] loop: the value of the first
    entry whose key is a prefix of [lowerName]. *)
Fixpoint alias_match (entries : list (str * str)) (lowerName : str) : option str :=
  match entries with
  | [] => None
  | (key, value) :: entries' =>
      if startsWith lowerName key then Some value
      else alias_match entries' lowerName
  end.

(** ** The patterns, as the engine receives them

    Each comment gives the pattern as the JavaScript has it, that is, with
    half the backslashes of the Python file.  In a pattern two backslashes
    stand for one backslash character of the subject, and the s, b and w
    that follow are plain letters. *)

Definition backslash : regex := RAtom (ch "\").

(** [/[.,]/g] *)
Definition re_punct : regex :=
  RAtom (AClass false [only "."; only ","]).

(** [/\\s*&\\s*/g]: backslash, s*, ampersand, backslash, s* *)
Definition re_amp : regex :=
  rseq [backslash; RStar (ch "s"); RAtom (ch "&"); backslash; RStar (ch "s")].

(** [/\\s+and\\s+/gi]: backslash, s+, the letters and, backslash, s+ *)
Definition re_and : regex :=
  rseq [backslash; RPlus (ch "s"); lit "and"; backslash; RPlus (ch "s")].

(** [/\\s+/g]: backslash, s+ *)
Definition re_spaces : regex :=
  rseq [backslash; RPlus (ch "s")].

(** [suffixRe], flags gi.  The JavaScript string literal has four
    backslashes before each b, the string two, and the pattern built from
    it asks for: backslash, b, one of [LEGAL_SUFFIXES], backslash, b. *)
Definition suffixRe : regex :=
  rseq [backslash; RAtom (ch "b");
        alternation LEGAL_SUFFIXES;
        backslash; RAtom (ch "b")].

(** [/\\s*[&+]\\s*$/g]: backslash, s*, ampersand or plus, backslash, s*,
    end *)
Definition re_trailing : regex :=
  rseq [backslash; RStar (ch "s"); RAtom (AClass false [only "&"; only "+"]);
        backslash; RStar (ch "s"); REol].

(** [/\\b\\w/g]: backslash, b, backslash, w *)
Definition re_word_start : regex :=
  rseq [backslash; RAtom (ch "b"); backslash; RAtom (ch "w")].

(** [/[\\u0300-\\u036f]/g]: the class of backslash, u, 0, 3, 0, the range
    from 0 to backslash (code units 48 to 92), u, 0, 3, 6 and f *)
Definition re_marks : regex :=
  RAtom (AClass false
    [only "\"; only "u"; only "0"; only "3"; only "0"; range "0" "\";
     only "u"; only "0"; only "3"; only "6"; only "f"]).

(** [/[^a-z0-9]+/g] *)
Definition re_non_alnum : regex :=
  RPlus (AClass true [range "a" "z"; range "0" "9"]).

(** [/^-+|-+$/g] *)
Definition re_edge_hyphens : regex :=
  RAlt (rseq [RBol; RPlus (ch "-")]) (rseq [RPlus (ch "-"); REol]).

(** ** The two functions

    The three library functions they call on strings of any script are
    parameters: [String.prototype.toLowerCase], [toUpperCase] and
    [normalize('NFD')].  The calls to [console.log] do not touch the
    result and are left out. *)
Section Program.

Variable toLowerCase : str -> str.
Variable toUpperCase : str -> str.
Variable normalizeNFD : str -> str.

(** The chain of replacements after the alias loop. *)
Definition strip (name : str) : str :=
  let n := trim (replaceWith false re_spaces (js " ")
             (replaceWith true re_and (js " ")
               (replaceWith false re_amp (js " ")
                 (replaceWith false re_punct (js " ") name)))) in
  let n := trim (replaceWith false re_spaces (js " ")
             (replaceWith true suffixRe [] n)) in
  let n := trim (replaceWith false re_trailing [] n) in
  replaceAll false re_word_start (fun c => toUpperCase c) n.

Definition normalizeCorrespondent (name : value) : str :=
  if negb (truthy name) || negb (is_string name) then js "Unknown"
  else
    match name with
    | VString name =>
        let lowerName := trim (toLowerCase name) in
        match alias_match ALIASES lowerName with
        | Some value => value
        | None =>
            let n := strip name in
            match n with
            | [] => js "Unknown"
            | _ :: _ => n
            end
        end
    | _ => js "Unknown"
    end.

Definition generateSlug (name : str) : str :=
  substring0 50
    (replaceWith false re_edge_hyphens []
      (replaceWith false re_non_alnum (js "-")
        (replaceWith false re_marks []
          (normalizeNFD (toLowerCase name))))).

End Program.

(** ** The library functions on Latin-1

    A model of the three library functions on the code units below 256
    (Unicode's case mappings and canonical decompositions for Basic Latin
    and Latin-1 Supplement), used to run the program on examples.  Code
    units from 256 on are left as they are. *)
Module Latin1.

Definition lower1 (c : N) : N :=
  if ((65 <=? c) && (c <=? 90)
      || (192 <=? c) && (c <=? 222) && negb (c =? 215))%N
  then (c + 32)%N else c.

Definition upper1 (c : N) : str :=
  if ((97 <=? c) && (c <=? 122)
      || (224 <=? c) && (c <=? 254) && negb (c =? 247))%N
  then [(c - 32)%N]
  else if (c =? 223)%N then [83; 83]%N
  else if (c =? 181)%N then [924%N]
  else if (c =? 255)%N then [376%N]
  else [c].

(** Base letter and combining mark of the precomposed letters. *)
Definition decompose_upper (c : N) : option (N * N) :=
  match c with
  | 192 => Some (65, 768) | 193 => Some (65, 769) | 194 => Some (65, 770)
  | 195 => Some (65, 771) | 196 => Some (65, 776) | 197 => Some (65, 778)
  | 199 => Some (67, 807)
  | 200 => Some (69, 768) | 201 => Some (69, 769) | 202 => Some (69, 770)
  | 203 => Some (69, 776)
  | 204 => Some (73, 768) | 205 => Some (73, 769) | 206 => Some (73, 770)
  | 207 => Some (73, 776)
  | 209 => Some (78, 771)
  | 210 => Some (79, 768) | 211 => Some (79, 769) | 212 => Some (79, 770)
  | 213 => Some (79, 771) | 214 => Some (79, 776)
  | 217 => Some (85, 768) | 218 => Some (85, 769) | 219 => Some (85, 770)
  | 220 => Some (85, 776)
  | 221 => Some (89, 769)
  | _ => None
  end%N.

Definition decompose1 (c : N) : str :=
  match decompose_upper c with
  | Some (base, mark) => [base; mark]
  | None =>
      if (c =? 255)%N then [121; 776]%N
      else
        match decompose_upper (c - 32) with
        | Some (base, mark) =>
            if (224 <=? c)%N then [(base + 32)%N; mark] else [c]
        | None => [c]
        end
  end.

Definition toLowerCase (s : str) : str := map lower1 s.
Definition toUpperCase (s : str) : str := concat (map upper1 s).
Definition normalizeNFD (s : str) : str := concat (map decompose1 s).

Definition normalizeCorrespondent : value -> str :=
  JS.normalizeCorrespondent toLowerCase toUpperCase.

Definition generateSlug : str -> str :=
  JS.generateSlug toLowerCase normalizeNFD.

End Latin1.

(** Whether a pattern can match without consuming, and whether a match
    that consumes can begin with a given code unit. *)
Fixpoint nullable (r : regex) : bool :=
  match r with
  | RAtom _ | RPlus _ => false
  | RStar _ | ROpt _ | REps | RBol | REol => true
  | RSeq r1 r2 => nullable r1 && nullable r2
  | RAlt r1 r2 => nullable r1 || nullable r2
  end.

Fixpoint can_start (icase : bool) (r : regex) (c : N) : bool :=
  match r with
  | RAtom a | RStar a | RPlus a | ROpt a => atom_ok icase a c
  | RSeq r1 r2 => can_start icase r1 c || nullable r1 && can_start icase r2 c
  | RAlt r1 r2 => can_start icase r1 c || can_start icase r2 c
  | REps | RBol | REol => false
  end.

(** What the first replacement does to a code unit: dot and comma become
    a space. *)
Definition punct_to_space (c : N) : N :=
  if ((c =? 46) || (c =? 44))%N then 32%N else c.

(** The shape the slug is meant to have: lower-case letters and digits,
    with every hyphen followed by a letter or digit (the pattern start,
    letters or digits, then groups of a hyphen and one or more letters or
    digits, end). *)
Definition alnum (c : N) : bool :=
  ((97 <=? c) && (c <=? 122) || (48 <=? c) && (c <=? 57))%N.

Fixpoint slug_shape (s : str) : bool :=
  match s with
  | [] => true
  | c :: s' =>
      if alnum c then slug_shape s'
      else (c =? 45)%N
           && match s' with d :: _ => alnum d | [] => false end
           && slug_shape s'
  end.

(** ** What the last three steps of [generateSlug] compute

    Plain recursive functions that the two global replacements of
    [generateSlug] are shown to compute, and the properties of a slug they
    are used to state. *)
Definition is_hyphen (c : N) : bool := (c =? 45)%N.

Fixpoint skip_while (p : N -> bool) (s : str) : str :=
  match s with
  | c :: s' => if p c then skip_while p s' else s
  | [] => []
  end.

(** Every run of code units outside a-z and 0-9 becomes one hyphen;
    [in_run] tells that the hyphen of the current run is already out. *)
Fixpoint collapse (in_run : bool) (s : str) : str :=
  match s with
  | [] => []
  | c :: s' =>
      if alnum c then c :: collapse false s'
      else if in_run then collapse true s'
      else 45%N :: collapse true s'
  end.

(** The string without the hyphens it ends with. *)
Fixpoint strip_trailing_hyphens (s : str) : str :=
  match s with
  | [] => []
  | c :: s' =>
      if forallb is_hyphen s then [] else c :: strip_trailing_hyphens s'
  end.

Definition slug_char (c : N) : bool := alnum c || is_hyphen c.

Fixpoint no_double_hyphen (s : str) : bool :=
  match s with
  | c :: s' =>
      negb (is_hyphen c
            && match s' with d :: _ => is_hyphen d | [] => false end)
      && no_double_hyphen s'
  | [] => true
  end.

(** A string that neither begins nor ends with white space. *)
Definition trimmed (s : str) : Prop :=
  (forall c, head s = Some c -> isWhiteSpace c = false)
  /\ (forall c, last s = Some c -> isWhiteSpace c = false).

End JS.

(** * The Python function [apply_fixes] *)
Module Py.

(** ** Values

    What [json.load] returns: [None], booleans, numbers, strings, lists and
    dictionaries with string keys.  Every value it builds is a fresh object,
    so no two places of a loaded workflow share a list or a dictionary, and
    an update in place is an update of the tree.  Numbers are never
    inspected by the script; an integer stands for them. *)
#[warnings="-register-all"] Inductive json :=
| JNull
| JBool (b : bool)
| JNum (x : Z)
| JStr (s : string)
| JList (l : list json)
| JDict (d : gmap string json).

(** ** Exceptions *)
Inductive exn := KeyError | TypeError | AttributeError.

Inductive result (A : Type) :=
| Ok (a : A)
| Raise (e : exn).
Arguments Ok {A} a.
Arguments Raise {A} e.

#[global] Instance result_ret : MRet result := fun A a => Ok a.

#[global] Instance result_bind : MBind result := fun A B k m =>
  match m with
  | Ok a => k a
  | Raise e => Raise e
  end.

(** The body of a loop on each item in turn, up to the first exception. *)
Fixpoint traverse {A B : Type} (f : A -> result B) (l : list A) : result (list B) :=
  match l with
  | [] => Ok []
  | x :: l' => y ← f x; l'' ← traverse f l'; Ok (y :: l'')
  end.

(** ** The operations the script uses on loaded values *)

(** [v.get(key, default)]: only a dictionary has the method. *)
Definition py_get (v : json) (key : string) (default : json) : result json :=
  match v with
  | JDict d => Ok (match d !! key with Some x => x | None => default end)
  | _ => Raise AttributeError
  end.

(** [v[key]] with a string key *)
Definition py_getitem (v : json) (key : string) : result json :=
  match v with
  | JDict d => match d !! key with Some x => Ok x | None => Raise KeyError end
  | _ => Raise TypeError
  end.

(** [v[key] = value] with a string key *)
Definition py_setitem (v : json) (key : string) (value : json) : result json :=
  match v with
  | JDict d => Ok (JDict (<[key := value]> d))
  | _ => Raise TypeError
  end.

(** [v == s] for a string literal [s] *)
Definition eq_str (v : json) (s : string) : bool :=
  match v with
  | JStr s' => String.eqb s' s
  | _ => false
  end.

Fixpoint is_substring (needle s : string) : bool :=
  String.prefix needle s
  || match s with
     | String _ s' => is_substring needle s'
     | EmptyString => false
     end.

(** [needle in v] *)
Definition py_contains (needle : string) (v : json) : result bool :=
  match v with
  | JStr s => Ok (is_substring needle s)
  | JList l => Ok (existsb (fun x => eq_str x needle) l)
  | JDict d => Ok (bool_decide (is_Some (d !! needle)))
  | _ => Raise TypeError
  end.

(** [str.replace(old, new)]: the occurrences of [old] from left to right,
    without overlap.  [skip] counts the characters of the current
    occurrence that are still to be passed over. *)
Fixpoint str_replace_go (old new : string) (skip : nat) (s : string) : string :=
  match s with
  | EmptyString =>
      match skip, old with
      | O, EmptyString => new
      | _, _ => EmptyString
      end
  | String c s' =>
      match skip with
      | S k => str_replace_go old new k s'
      | O =>
          if String.prefix old s then
            match old with
            | EmptyString => new +:+ String c (str_replace_go old new 0 s')
            | String _ old' =>
                new +:+ str_replace_go old new (String.length old') s'
            end
          else String c (str_replace_go old new 0 s')
      end
  end.

Definition str_replace (old new s : string) : string :=
  str_replace_go old new 0 s.

(** [v.replace(old, new)]: only a string has the method. *)
Definition py_replace (v : json) (old new : string) : result json :=
  match v with
  | JStr s => Ok (JStr (str_replace old new s))
  | _ => Raise AttributeError
  end.

(** The items of [for node in v]: the elements of a list, the keys of a
    dictionary, the characters of a string. *)
Definition py_iter (v : json) : result (list json) :=
  match v with
  | JList l => Ok l
  | JDict d => Ok (map (fun kv => JStr (fst kv)) (map_to_list d))
  | JStr s =>
      Ok (map (fun c => JStr (String c EmptyString)) (list_ascii_of_string s))
  | _ => Raise TypeError
  end.

(** [node['parameters'][key] = value]: the dictionary under
    'parameters' is updated in place, so the node holds the updated one. *)
Definition set_parameter (node : json) (key : string) (value : json) : result json :=
  parameters ← py_getitem node "parameters";
  parameters' ← py_setitem parameters key value;
  py_setitem node "parameters" parameters'.

(** One [for node in nodes] loop.  The body updates the node dictionaries
    in place; the items of a dictionary or of a string are strings, which
    no body can update. *)
Definition for_each (body : json -> result json) (nodes : json) : result json :=
  items ← py_iter nodes;
  items' ← traverse body items;
  Ok (match nodes with
      | JList _ => JList items'
      | _ => nodes
      end).

(** ** The script *)
Section Script.

(** The two texts the script writes into the workflow. *)
Variable GENERATE_STORAGE_PATH_CODE : string.
Variable GET_STORAGE_PATH_ID_CODE : string.

Definition page_size_query : json :=
  JDict {[ "parameters" :=
             JList [JDict (<["name" := JStr "page_size"]>
                             {[ "value" := JStr "1000" ]})] ]}.

(** Fix 1 *)
Definition fix_pagination (node : json) : result json :=
  name ← py_get node "name" JNull;
  if eq_str name "Check Storage Paths" then
    node ← set_parameter node "sendQuery" (JBool true);
    set_parameter node "queryParameters" page_size_query
  else Ok node.

(** Fix 2 *)
Definition fix_generate_storage_path (node : json) : result json :=
  name ← py_get node "name" JNull;
  if eq_str name "Generate Storage Path" then
    set_parameter node "jsCode" (JStr GENERATE_STORAGE_PATH_CODE)
  else Ok node.

(** Fix 3 *)
Definition fix_get_storage_path_id (node : json) : result json :=
  name ← py_get node "name" JNull;
  if eq_str name "Get Storage Path ID" then
    set_parameter node "jsCode" (JStr GET_STORAGE_PATH_ID_CODE)
  else Ok node.

(** The body shared by fixes 4 and 5: replace [old] by [new] in the text
    under [key] when the text mentions correspondent_name. *)
Definition replace_in_parameter (node : json) (key old new : string) : result json :=
  parameters ← py_getitem node "parameters";
  current ← py_get parameters key (JStr "");
  found ← py_contains "correspondent_name" current;
  if found : bool then
    updated ← py_replace current old new;
    set_parameter node key updated
  else Ok node.

(** Fix 4 *)
Definition fix_check_correspondent (node : json) : result json :=
  name ← py_get node "name" JNull;
  if eq_str name "Check Correspondent Exists" then
    replace_in_parameter node "jsCode" "data.correspondent_name"
      "data.correspondent_canonical || data.correspondent_name"
  else Ok node.

(** Fix 5 *)
Definition fix_create_correspondent (node : json) : result json :=
  name ← py_get node "name" JNull;
  if eq_str name "Create Correspondent" then
    replace_in_parameter node "jsonBody" "$json.correspondent_name"
      "$json.correspondent_canonical"
  else Ok node.

(** [apply_fixes], from the loaded workflow on.  The list under 'nodes' is
    the one the loops walk, so the workflow returned holds the updated
    nodes; without that key the loops walk a fresh empty list.  The calls
    to [print] and the list [fixes_applied], which only feeds them, are
    left out. *)
Definition apply_fixes (workflow : json) : result json :=
  nodes ← py_get workflow "nodes" (JList []);
  nodes ← for_each fix_pagination nodes;
  nodes ← for_each fix_generate_storage_path nodes;
  nodes ← for_each fix_get_storage_path_id nodes;
  nodes ← for_each fix_check_correspondent nodes;
  nodes ← for_each fix_create_correspondent nodes;
  Ok (match workflow with
      | JDict d =>
          match d !! "nodes" with
          | Some _ => JDict (<["nodes" := nodes]> d)
          | None => workflow
          end
      | _ => workflow
      end).

End Script.

(** ** What the frame property speaks about *)

(** The names of the nodes the script patches. *)
Definition PATCHED : list string :=
  [ "Check Storage Paths"; "Generate Storage Path"; "Get Storage Path ID";
    "Check Correspondent Exists"; "Create Correspondent" ].

Definition node_name (node : json) : option json :=
  match node with
  | JDict d => d !! "name"
  | _ => None
  end.

(** The node is named, and patched, by the script. *)
Definition patched (node : json) : bool :=
  match node_name node with
  | Some name => existsb (eq_str name) PATCHED
  | None => false
  end.

Definition node_list (workflow : json) : list json :=
  match workflow with
  | JDict d => match d !! "nodes" with Some (JList l) => l | _ => [] end
  | _ => []
  end.

Definition top_level (workflow : json) (key : string) : option json :=
  match workflow with
  | JDict d => d !! key
  | _ => None
  end.

(** A workflow as the tool exports it: an object whose 'nodes', when
    present, is a list of objects, each with an object under 'parameters'
    in which 'jsCode' and 'jsonBody', when present, are strings. *)
Definition text_or_absent (v : option json) : bool :=
  match v with
  | None | Some (JStr _) => true
  | Some _ => false
  end.

Definition is_node (node : json) : bool :=
  match node with
  | JDict d =>
      match d !! "parameters" with
      | Some (JDict p) =>
          text_or_absent (p !! "jsCode") && text_or_absent (p !! "jsonBody")
      | _ => false
      end
  | _ => false
  end.

Definition is_workflow (workflow : json) : bool :=
  match workflow with
  | JDict d =>
      match d !! "nodes" with
      | None => true
      | Some (JList l) => forallb is_node l
      | Some _ => false
      end
  | _ => false
  end.

(** What a loop may change: the items of a list that the script patches. *)
Definition frame (nodes nodes' : json) : Prop :=
  match nodes with
  | JList l =>
      exists l' : list json,
        nodes' = JList l'
        /\ length l' = length l
        /\ forall (i : nat) (x : json),
             l !! i = Some x -> patched x = false -> l' !! i = Some x
  | _ => nodes' = nodes
  end.

(** A small workflow: one node of each kind. *)
Definition sample_workflow : json :=
  JDict (<["name" := JStr "Paperless AI Processing"]>
        (<["nodes" := JList
             [ JDict (<["name" := JStr "Check Storage Paths"]>
                       {[ "parameters" := JDict ∅ ]});
               JDict (<["name" := JStr "Upload Document"]>
                       {[ "parameters" := JDict {[ "jsCode" := JStr "return data.correspondent_name;" ]} ]});
               JDict (<["name" := JStr "Create Correspondent"]>
                       {[ "parameters" := JDict {[ "jsonBody" := JStr "name=$json.correspondent_name" ]} ]}) ]]>
        {[ "connections" := JDict {[ "Upload Document" := JList [] ]} ]})).

End Py.

(** * The rest of the script: one node at a time, and [main] *)
Module Script.
Import Py.

(** ** Reading a node *)

Definition node_key (node : json) (key : string) : option json :=
  match node with
  | JDict d => d !! key
  | _ => None
  end.

Definition parameter (node : json) (key : string) : option json :=
  match node_key node "parameters" with
  | Some (JDict p) => p !! key
  | _ => None
  end.

Definition named (node : json) (name : string) : bool :=
  match node_key node "name" with
  | Some v => eq_str v name
  | None => false
  end.

(** The parameters the script writes. *)
Definition WRITTEN : list string :=
  [ "sendQuery"; "queryParameters"; "jsCode"; "jsonBody" ].

Section Script.

Variable GENERATE_STORAGE_PATH_CODE : string.
Variable GET_STORAGE_PATH_ID_CODE : string.

(** What the five loops of [apply_fixes] together do to one node: the body
    of the one loop whose name test the node passes. *)
Definition patch_node (node : json) : result json :=
  name ← py_get node "name" JNull;
  if eq_str name "Check Storage Paths" then
    node ← set_parameter node "sendQuery" (JBool true);
    set_parameter node "queryParameters" page_size_query
  else if eq_str name "Generate Storage Path" then
    set_parameter node "jsCode" (JStr GENERATE_STORAGE_PATH_CODE)
  else if eq_str name "Get Storage Path ID" then
    set_parameter node "jsCode" (JStr GET_STORAGE_PATH_ID_CODE)
  else if eq_str name "Check Correspondent Exists" then
    replace_in_parameter node "jsCode" "data.correspondent_name"
      "data.correspondent_canonical || data.correspondent_name"
  else if eq_str name "Create Correspondent" then
    replace_in_parameter node "jsonBody" "$json.correspondent_name"
      "$json.correspondent_canonical"
  else Ok node.

(** The text under a parameter is absent, or a string in which [old] does
    not occur. *)
Definition lacks (v : option json) (old : string) : bool :=
  match v with
  | None => true
  | Some (JStr s) => negb (is_substring old s)
  | Some _ => false
  end.

(** A node the script has nothing to do on: none of the five names, or
    one of the two correspondent nodes without the text to replace. *)
Definition untouched (node : json) : bool :=
  negb (patched node)
  || named node "Check Correspondent Exists"
     && lacks (parameter node "jsCode") "data.correspondent_name"
  || named node "Create Correspondent"
     && lacks (parameter node "jsonBody") "$json.correspondent_name".

(** The value under a key is absent or an object. *)
Definition lacks_or_object (v : option json) : bool :=
  match v with
  | None | Some (JDict _) => true
  | Some _ => false
  end.

(** The five loops as one loop with [patch_node] for its body. *)
Definition single_pass (workflow : json) : result json :=
  nodes ← py_get workflow "nodes" (JList []);
  nodes ← for_each patch_node nodes;
  Ok (match workflow with
      | JDict d =>
          match d !! "nodes" with
          | Some _ => JDict (<["nodes" := nodes]> d)
          | None => workflow
          end
      | _ => workflow
      end).

(** The five loops on one node, in the order of the script. *)
Definition five_fixes (node : json) : result json :=
  node ← fix_pagination node;
  node ← fix_generate_storage_path GENERATE_STORAGE_PATH_CODE node;
  node ← fix_get_storage_path_id GET_STORAGE_PATH_ID_CODE node;
  node ← fix_check_correspondent node;
  fix_create_correspondent node.

(** ** [main]

    The files the script touches are texts in a store indexed by path; a
    path is the list of its components.  [json.load] and [json.dump] with
    indent 2 are the library's: [json_loads] gives [None] where
    [json.load] raises, [json_dumps] is the text [json.dump] writes.  A
    store holds regular files that decode as UTF-8, each by the text that
    reading it gives: a current workflow file that is a directory or does
    not decode, and a [mkdir] that fails, stop the run before anything is
    written and are not represented.  The calls to [print] leave the
    store alone and are left out. *)
Definition path := list string.

Variable repo_root : path.
Variable json_loads : string -> option json.
Variable json_dumps : json -> string.

Definition current_workflow : path :=
  repo_root ++ ["workflows"; "current"; "paperless-ai-automation.json"].

Definition backup_workflow : path :=
  repo_root ++ ["workflows"; "archive"; "paperless-ai-automation-v14.1-backup.json"].

Definition output_workflow : path :=
  repo_root ++ ["workflows"; "current"; "paperless-ai-automation-v14.2.json"].

(** How a run ends. *)
Inductive outcome :=
| Finished
| Exit (code : Z)
| FileNotFoundError
| JSONDecodeError
| Raised (e : exn).

(** The three statements under Update version info. *)
Definition update_version (fixed_workflow : json) : result json :=
  fixed_workflow ← py_setitem fixed_workflow "name"
                     (JStr "Paperless AI Processing v14.2");
  meta ← py_get fixed_workflow "meta" (JDict ∅);
  fixed_workflow ← py_setitem fixed_workflow "meta" meta;
  meta ← py_getitem fixed_workflow "meta";
  meta ← py_setitem meta "version" (JStr "14.2");
  py_setitem fixed_workflow "meta" meta.

(** [main]: the store it leaves and how it ends. *)
Definition main (store : gmap path string) : outcome * gmap path string :=
  match store !! current_workflow with
  | None => (Exit 1, store)
  | Some backup_data =>
      let store := <[backup_workflow := backup_data]> store in
      match store !! current_workflow with
      | None => (FileNotFoundError, store)
      | Some text =>
          match json_loads text with
          | None => (JSONDecodeError, store)
          | Some workflow =>
              match
                fixed_workflow ←
                  Py.apply_fixes GENERATE_STORAGE_PATH_CODE
                    GET_STORAGE_PATH_ID_CODE workflow;
                update_version fixed_workflow
              with
              | Raise e => (Raised e, store)
              | Ok fixed_workflow =>
                  let store :=
                    <[output_workflow := json_dumps fixed_workflow]> store in
                  let store :=
                    <[current_workflow := json_dumps fixed_workflow]> store in
                  (Finished, store)
              end
          end
      end
  end.

End Script.

(** ** Small workflows and a small store for the examples *)

Definition sample_fixed : json :=
  match Py.apply_fixes "generate" "get" sample_workflow with
  | Ok workflow => workflow
  | Raise _ => JNull
  end.

Definition node_at (workflow : json) (i : nat) : json :=
  default JNull (node_list workflow !! i).

(** A workflow with the node of fix 4. *)
Definition sample_check : json :=
  JDict {[ "nodes" := JList
             [ JDict (<["name" := JStr "Check Correspondent Exists"]>
                       {[ "parameters" :=
                            JDict {[ "jsCode" := JStr "const q = data.correspondent_name;" ]} ]}) ] ]}.

Definition sample_check_fixed : json :=
  match Py.apply_fixes "generate" "get" sample_check with
  | Ok workflow => workflow
  | Raise _ => JNull
  end.

(** A node the script patches, without 'parameters'. *)
Definition sample_broken : json :=
  JDict {[ "nodes" := JList [JDict {[ "name" := JStr "Check Storage Paths" ]}] ]}.

(** A workflow whose 'meta' is null. *)
Definition sample_null_meta : json :=
  JDict (<["meta" := JNull]> {[ "nodes" := JList [] ]}).

(** A store with the current workflow file only, and stand-ins for the
    library's reader and writer: the writer prints the name of the
    workflow, the reader knows three texts, one of them the text written
    for the fixed sample workflow. *)
Definition sample_root : path := ["repo"].

(** The sample workflow as a finished run leaves it. *)
Definition sample_final : json :=
  match update_version sample_fixed with
  | Ok workflow => workflow
  | Raise _ => JNull
  end.

Definition sample_loads (text : string) : option json :=
  if String.eqb text "v14.1" then Some sample_workflow
  else if String.eqb text "Paperless AI Processing v14.2" then Some sample_final
  else if String.eqb text "null meta" then Some sample_null_meta
  else None.

Definition sample_dumps (workflow : json) : string :=
  match top_level workflow "name" with
  | Some (JStr s) => s
  | _ => "?"
  end.

Definition sample_store (text : string) : gmap path string :=
  {[ current_workflow sample_root := text ]}.

Definition sample_main (store : gmap path string) : outcome * gmap path string :=
  main "generate" "get" sample_root sample_loads sample_dumps store.

End Script.

(** * The code of the two nodes the script rewrites

    The text that fix 2 and fix 3 write into the workflow is JavaScript
    that the tool runs on each item.  An item is a JSON object; the
    bodies read some of its fields and return it with fields added. *)
Module Node.
Import JS.

(** ** Values of an item

    What JSON gives, and [undefined] for a field that is absent.  Numbers
    are integers, as in [JS.value]. *)
#[warnings="-register-all"] Inductive jsval :=
| Undefined
| Null
| Boolean (b : bool)
| Number (x : Z)
| Str (s : str)
| Array (l : list jsval)
| Object (fields : gmap str jsval).

Abbreviation item := (gmap str jsval).

(** The value as [normalizeCorrespondent] sees it: the function only
    asks whether its argument is truthy and whether it is a string. *)
Definition to_value (v : jsval) : value :=
  match v with
  | Undefined => VUndefined
  | Null => VNull
  | Boolean b => VBoolean b
  | Number x => VNumber x
  | Str s => VString s
  | Array _ | Object _ => VObject
  end.

Definition ToBoolean (v : jsval) : bool := truthy (to_value v).

(** [o.key] on an object read from JSON *)
Definition field (o : item) (key : string) : jsval :=
  default Undefined (o !! js key).

(** [v.key] for a truthy [v] and one of the keys the nodes read, none of
    which is a property of a string, a number, a boolean or an array. *)
Definition get (v : jsval) (key : string) : jsval :=
  match v with
  | Object o => field o key
  | _ => Undefined
  end.

(** [a || b] *)
Definition or_else (a b : jsval) : jsval :=
  if ToBoolean a then a else b.

(** [s.includes(t)] *)
Fixpoint includes (s t : str) : bool :=
  startsWith s t
  || match s with
     | _ :: s' => includes s' t
     | [] => false
     end.

(** How a node body ends: it returns an item, throws an [Error] with a
    message, or the runtime throws a [TypeError]. *)
Inductive completion :=
| Return (json : item)
| Throw (message : str)
| ThrowTypeError.

(** The messages of the three [throw] statements. *)
Definition DUPLICATE : str :=
  js "Storage path creation failed due to duplicate. Please re-upload document or check "
  ++ [34%N] ++ js "Check Storage Paths" ++ [34%N] ++ js " pagination settings.".

Definition HTTP_FAILED : str := js "Create Storage Path HTTP request failed: ".

Definition NO_ID : str :=
  js "Failed to get storage path ID - check previous nodes".

Definition TEMPLATE_TAIL : str :=
  js "/{created_year}-{created_month}-{created_day}-{title}".

Section Bodies.

Variable toLowerCase : str -> str.
Variable toUpperCase : str -> str.
Variable normalizeNFD : str -> str.

(** The conversion of a value that is not a string to a string, and the
    comparison [v >= n] for a string, an array or an object, which goes
    through the conversion to a number: both are the runtime's. *)
Variable ToString : jsval -> str.
Variable at_least : jsval -> Z -> bool.

(** The operand of [+] beside a string *)
Definition to_string (v : jsval) : str :=
  match v with
  | Str s => s
  | _ => ToString v
  end.

(** [v >= n] for a number [n]: [undefined] converts to NaN, [null] to 0,
    the booleans to 0 and 1. *)
Definition ge (v : jsval) (n : Z) : bool :=
  match v with
  | Undefined => false
  | Null => (n <=? 0)%Z
  | Boolean b => (n <=? if b then 1 else 0)%Z
  | Number x => (n <=? x)%Z
  | Str _ | Array _ | Object _ => at_least v n
  end.

(** ** Generate Storage Path (the text after [NORMALIZATION_CODE]) *)
Definition generate_storage_path (data : item) : item :=
  let category :=
    or_else (field data "storage_category") (Str (js "reference-documents")) in
  let rawCorrespondent :=
    or_else (field data "correspondent_name") (Str (js "Unknown")) in
  let correspondent :=
    normalizeCorrespondent toLowerCase toUpperCase (to_value rawCorrespondent) in
  let correspondentSlug := generateSlug toLowerCase normalizeNFD correspondent in
  let pathTemplate :=
    to_string category ++ js "/" ++ correspondentSlug ++ TEMPLATE_TAIL in
  let pathName := to_string category ++ js " - " ++ correspondent in
  <[js "storage_path_name" := Str pathName]>
    (<[js "storage_path_template" := Str pathTemplate]>
       (<[js "correspondent_canonical" := Str correspondent]> data)).

(** ** Get Storage Path ID

    [matchResult] is the item of the node Match Storage Path,
    [createResult] the input of this node. *)
Definition error_status (createResult : jsval) : bool :=
  ToBoolean createResult && ge (get createResult "statusCode") 400.

Definition get_storage_path_id (matchResult : item) (createResult : jsval) : completion :=
  if error_status createResult then
    let errorMsg :=
      or_else (or_else (get createResult "error") (get createResult "message"))
              (Str []) in
    match errorMsg with
    | Str s =>
        let isUniqueConstraint :=
          includes (toLowerCase s) (js "unique constraint")
          || includes (toLowerCase s) (js "already exists") in
        if isUniqueConstraint then Throw DUPLICATE
        else Throw (HTTP_FAILED ++ s)
    | _ => ThrowTypeError
    end
  else
    let '(storagePathId, source) :=
      if ToBoolean (field matchResult "storage_path_id") then
        (field matchResult "storage_path_id", js "existing")
      else if ToBoolean createResult && ToBoolean (get createResult "id") then
        (get createResult "id", js "created")
      else (Null, js "unknown") in
    if negb (ToBoolean storagePathId) then Throw NO_ID
    else
      Return (<[js "storage_path_source" := Str source]>
                (<[js "storage_path_id" := storagePathId]> matchResult)).

(** ** Generate Storage Path before the fix (enhance_workflow.py)

    The slug is computed in place, on the name as it comes;
    [toLowerCase] is a method of strings only. *)
Definition enhance_slug (correspondent : str) : str :=
  replaceWith false re_edge_hyphens []
    (replaceWith false re_non_alnum (js "-") (toLowerCase correspondent)).

Definition enhance_generate_storage_path (data : item) : option item :=
  let category :=
    or_else (field data "storage_category") (Str (js "reference-documents")) in
  let correspondent :=
    or_else (field data "correspondent_name") (Str (js "Unknown")) in
  match correspondent with
  | Str name =>
      let correspondentSlug := enhance_slug name in
      let pathTemplate :=
        to_string category ++ js "/" ++ correspondentSlug ++ TEMPLATE_TAIL in
      let pathName := to_string category ++ js " - " ++ name in
      Some (<[js "storage_path_name" := Str pathName]>
              (<[js "storage_path_template" := Str pathTemplate]> data))
  | _ => None
  end.

End Bodies.

(** The code units the slug never holds: the pattern of the third step
    of [generateSlug] removes them. *)
Definition is_mark (c : N) : bool :=
  ((48 <=? c) && (c <=? 92) || (c =? 117) || (c =? 102))%N.

(** ** Items for the examples, and stand-ins for the two conversions of
    the runtime: every value prints as a plain object does, and no string,
    array or object compares as a number. *)
Definition sample_ToString (v : jsval) : str := js "[object Object]".

Definition sample_at_least (v : jsval) (n : Z) : bool := false.

Definition sample_data : item :=
  <[js "correspondent_name" := Str (js "Stadtwerke, Wien")]>
    {[ js "title" := Str (js "Invoice") ]}.

Definition sample_blank : item :=
  <[js "correspondent_name" := Str (js "  ")]>
    {[ js "storage_category" := Str (js "invoices") ]}.

Definition sample_numeric : item :=
  {[ js "correspondent_name" := Number 5 ]}.

Definition sample_match : item :=
  <[js "storage_path_id" := Number 7]> {[ js "title" := Str (js "Invoice") ]}.

Definition sample_created : jsval :=
  Object {[ js "id" := Number 9 ]}.

Definition sample_returned : item :=
  match get_storage_path_id Latin1.toLowerCase sample_at_least
          sample_match sample_created with
  | Return json => json
  | _ => ∅
  end.

End Node.

Module JSFacts.
Import JS.

(** ** Facts about the matcher *)

Lemma star_matches_suffix (p : N -> bool) (s rest : str) :
  rest ∈ star_matches p s -> rest `suffix_of` s.
Proof.
  induction s as [|c s IH]; simpl.
  - intros ->%list_elem_of_singleton. done.
  - destruct (p c).
    + intros [H| ->%list_elem_of_singleton]%elem_of_app; [|done].
      by apply suffix_cons_r, IH.
    + intros ->%list_elem_of_singleton. done.
Qed.

Lemma one_match_suffix (p : N -> bool) (s rest : str) :
  rest ∈ one_match p s -> rest `suffix_of` s.
Proof.
  destruct s as [|c s]; simpl; [by intros ?%elem_of_nil|].
  destruct (p c); [|by intros ?%elem_of_nil].
  intros ->%list_elem_of_singleton. by apply suffix_cons_r.
Qed.

(** Every result of the matcher is what remains of the input. *)
Lemma rmatch_suffix (icase : bool) (total : nat) (r : regex) (s rest : str) :
  rest ∈ rmatch icase total r s -> rest `suffix_of` s.
Proof.
  revert s rest.
  induction r as [a|a|a|a|r1 IH1 r2 IH2|r1 IH1 r2 IH2| | |]; intros s rest; simpl.
  - apply one_match_suffix.
  - apply star_matches_suffix.
  - destruct s as [|c s]; [by intros ?%elem_of_nil|].
    destruct (atom_ok icase a c); [|by intros ?%elem_of_nil].
    intros H%star_matches_suffix. by apply suffix_cons_r.
  - intros [H| ->%list_elem_of_singleton]%elem_of_app; [|done].
    by apply one_match_suffix in H.
  - intros (mid & Hmid%list_elem_of_In & Hrest%list_elem_of_In)%list_elem_of_In%in_flat_map.
    etrans; [by apply IH2|by apply IH1].
  - intros [H|H]%elem_of_app; auto.
  - intros ->%list_elem_of_singleton. done.
  - destruct (length s =? total)%nat; [|by intros ?%elem_of_nil].
    intros ->%list_elem_of_singleton. done.
  - destruct s; [|by intros ?%elem_of_nil].
    intros ->%list_elem_of_singleton. done.
Qed.

Lemma star_matches_start (p : N -> bool) (c : N) (s rest : str) :
  rest ∈ star_matches p (c :: s) -> rest = c :: s \/ p c = true.
Proof.
  simpl. destruct (p c); [by right|].
  intros ->%list_elem_of_singleton. by left.
Qed.

Lemma rmatch_start (icase : bool) (total : nat) (r : regex) (c : N) (s rest : str) :
  rest ∈ rmatch icase total r (c :: s) ->
  rest = c :: s /\ nullable r = true \/ can_start icase r c = true.
Proof.
  revert rest.
  induction r as [a|a|a|a|r1 IH1 r2 IH2|r1 IH1 r2 IH2| | |]; intros rest; simpl.
  - destruct (atom_ok icase a c); [by right|by intros ?%elem_of_nil].
  - intros [->|H]%star_matches_start; [by left|by right].
  - destruct (atom_ok icase a c); [by right|by intros ?%elem_of_nil].
  - destruct (atom_ok icase a c); [by right|]. simpl.
    intros ->%list_elem_of_singleton. by left.
  - intros (mid & Hmid%list_elem_of_In & Hrest%list_elem_of_In)%list_elem_of_In%in_flat_map.
    destruct (IH1 _ Hmid) as [[-> Hn1]| ->]; [|by right].
    destruct (IH2 _ Hrest) as [[-> Hn2]| ->].
    + left. by rewrite Hn1, Hn2.
    + right. rewrite Hn1. by rewrite orb_true_r.
  - intros [H|H]%elem_of_app.
    + destruct (IH1 _ H) as [[-> ->]| ->]; [by left|by right].
    + destruct (IH2 _ H) as [[-> ->]| ->]; [left|right]; by rewrite ?orb_true_r.
  - intros ->%list_elem_of_singleton. by left.
  - case_match; [|by intros ?%elem_of_nil].
    intros ->%list_elem_of_singleton. by left.
  - by intros ?%elem_of_nil.
Qed.

Lemma rmatch_nil (icase : bool) (total : nat) (r : regex) :
  nullable r = false -> rmatch icase total r [] = [].
Proof.
  induction r as [a|a|a|a|r1 IH1 r2 IH2|r1 IH1 r2 IH2| | |]; simpl; try done.
  - intros [H|H]%andb_false_iff.
    + by rewrite IH1.
    + assert (Hall : Forall (fun m => m = []) (rmatch icase total r1 [])).
      { apply Forall_forall. intros m Hm.
        apply rmatch_suffix in Hm. by apply suffix_nil_inv in Hm. }
      clear IH1. induction Hall as [|m l' -> _ IH]; [done|].
      simpl. rewrite (IH2 H). exact IH.
  - intros [H1 H2]%orb_false_iff. by rewrite IH1, IH2.
Qed.

Lemma rmatch_no_start (icase : bool) (total : nat) (r : regex) (c : N) (s : str) :
  nullable r = false -> can_start icase r c = false ->
  rmatch icase total r (c :: s) = [].
Proof.
  intros Hn Hc.
  destruct (rmatch icase total r (c :: s)) as [|rest l] eqn:E; [done|].
  assert (H : rest ∈ rmatch icase total r (c :: s)) by (rewrite E; left).
  apply rmatch_start in H as [[_ H]|H]; congruence.
Qed.

(** A pattern that matches nowhere in the subject leaves it as it is. *)
Lemma replace_go_id (icase : bool) (total : nat) (r : regex) (f : str -> str) (s : str) :
  nullable r = false ->
  Forall (fun c => can_start icase r c = false) s ->
  replace_go icase total r f 0 s = s.
Proof.
  intros Hn. induction 1 as [|c s Hc _ IH]; simpl.
  - by rewrite rmatch_nil.
  - rewrite rmatch_no_start by done. by rewrite IH.
Qed.

Lemma replaceAll_id (icase : bool) (r : regex) (f : str -> str) (s : str) :
  nullable r = false ->
  Forall (fun c => can_start icase r c = false) s ->
  replaceAll icase r f s = s.
Proof. apply replace_go_id. Qed.

(** ** Facts about white space and [trim] *)

Lemma trimStart_nil (s : str) :
  trimStart s = [] <-> Forall (fun c => isWhiteSpace c = true) s.
Proof.
  induction s as [|c s IH]; simpl; [done|].
  destruct (isWhiteSpace c) eqn:E.
  - rewrite IH. split; [by constructor|by inversion 1].
  - split; [done|]. inversion 1. congruence.
Qed.

Lemma trimStart_head (s : str) (c : N) :
  head (trimStart s) = Some c -> isWhiteSpace c = false.
Proof.
  induction s as [|d s IH]; simpl; [done|].
  destruct (isWhiteSpace d) eqn:E; [done|]. simpl. congruence.
Qed.

Lemma trimStart_snoc (s : str) (c : N) :
  isWhiteSpace c = false -> trimStart (s ++ [c]) = trimStart s ++ [c].
Proof.
  intros Hc. induction s as [|d s IH]; simpl; [by rewrite Hc|].
  by destruct (isWhiteSpace d).
Qed.

Lemma trimStart_suffix (s : str) : trimStart s `suffix_of` s.
Proof.
  induction s as [|c s IH]; simpl; [done|].
  destruct (isWhiteSpace c); [by apply suffix_cons_r|done].
Qed.

Lemma trimStart_id (s : str) :
  (forall c, head s = Some c -> isWhiteSpace c = false) -> trimStart s = s.
Proof.
  destruct s as [|c s]; simpl; [done|]. intros H. by rewrite (H c).
Qed.

Lemma trimEnd_last (s : str) (c : N) :
  last (trimEnd s) = Some c -> isWhiteSpace c = false.
Proof.
  unfold trimEnd. rewrite last_reverse. apply trimStart_head.
Qed.

Lemma trimEnd_head (s : str) (c : N) :
  (forall d, head s = Some d -> isWhiteSpace d = false) ->
  head (trimEnd s) = Some c -> isWhiteSpace c = false.
Proof.
  unfold trimEnd. destruct s as [|d s]; simpl; [done|].
  intros H. specialize (H d eq_refl).
  rewrite reverse_cons, trimStart_snoc by done.
  rewrite reverse_snoc. simpl. congruence.
Qed.

Lemma trimEnd_id (s : str) :
  (forall c, last s = Some c -> isWhiteSpace c = false) -> trimEnd s = s.
Proof.
  intros H. unfold trimEnd. rewrite trimStart_id; [apply reverse_involutive|].
  intros c Hc. apply H. by rewrite <- head_reverse.
Qed.

(** The result of [trim] neither begins nor ends with white space. *)
Lemma trim_trimmed (s : str) : trimmed (trim s).
Proof.
  split; intros c.
  - apply trimEnd_head, trimStart_head.
  - apply trimEnd_last.
Qed.

Lemma trim_id (s : str) : trimmed s -> trim s = s.
Proof.
  intros [Hh Hl]. unfold trim. rewrite (trimStart_id s Hh). by apply trimEnd_id.
Qed.

Lemma trim_nil (s : str) :
  trim s = [] <-> Forall (fun c => isWhiteSpace c = true) s.
Proof.
  split.
  - intros H. apply trimStart_nil.
    destruct (trimStart s) as [|c t] eqn:E; [done|].
    assert (Hc : isWhiteSpace c = false) by (apply (trimStart_head s); by rewrite E).
    unfold trim, trimEnd in H. rewrite E, reverse_cons in H.
    rewrite trimStart_snoc in H by done.
    apply (f_equal (@length N)) in H.
    rewrite length_reverse, length_app in H. simpl in H. lia.
  - intros H. apply trimStart_nil in H. unfold trim. by rewrite H.
Qed.

Lemma trimStart_Forall (P : N -> Prop) (s : str) :
  Forall P s -> Forall P (trimStart s).
Proof.
  intros H. destruct (trimStart_suffix s) as [k Hk].
  rewrite Hk in H. by apply Forall_app in H as [_ H].
Qed.

Lemma trim_Forall (P : N -> Prop) (s : str) :
  Forall P s -> Forall P (trim s).
Proof.
  intros H. unfold trim, trimEnd.
  apply Forall_reverse, trimStart_Forall, Forall_reverse. by apply trimStart_Forall.
Qed.

Lemma white_space_cases (c : N) :
  isWhiteSpace c = true ->
  (9 <= c <= 13 \/ c = 32 \/ c = 160 \/ c = 5760 \/ 8192 <= c <= 8202
   \/ c = 8232 \/ c = 8233 \/ c = 8239 \/ c = 8287 \/ c = 12288
   \/ c = 65279)%N.
Proof.
  unfold isWhiteSpace.
  rewrite !orb_true_iff, !andb_true_iff, !N.leb_le, !N.eqb_eq. tauto.
Qed.

(** ** Facts about the patterns of the program *)

Lemma canonicalize_backslash (c : N) :
  (canonicalize c =? canonicalize 92)%N = (c =? 92)%N.
Proof.
  unfold canonicalize. simpl.
  destruct ((97 <=? c) && (c <=? 122))%N eqn:E; [|done].
  apply andb_true_iff in E as [H1%N.leb_le H2%N.leb_le].
  destruct (N.eqb_spec (c - 32) 92), (N.eqb_spec c 92); lia.
Qed.

Lemma can_start_backslash_led (icase : bool) (rs : list regex) (c : N) :
  can_start icase (rseq (backslash :: rs)) c = (c =? 92)%N.
Proof.
  simpl. rewrite orb_false_r.
  destruct icase; [apply canonicalize_backslash|done].
Qed.

(** The seven patterns that begin with a backslash leave a string without
    backslash as it is. *)
Lemma replaceAll_backslash_led (icase : bool) (rs : list regex) (f : str -> str)
    (s : str) :
  Forall (fun c => c <> 92%N) s ->
  replaceAll icase (rseq (backslash :: rs)) f s = s.
Proof.
  intros H. apply replaceAll_id; [done|].
  eapply Forall_impl; [exact H|]. intros c Hc.
  rewrite can_start_backslash_led. by apply N.eqb_neq.
Qed.

(** A pattern of one atom replaced by one code unit is a map. *)
Lemma replace_go_atom (icase : bool) (total : nat) (a : atom) (b : N) (s : str) :
  replace_go icase total (RAtom a) (fun _ => [b]) 0 s
  = map (fun c => if atom_ok icase a c then b else c) s.
Proof.
  induction s as [|c s IH]; [done|].
  cbn [replace_go rmatch one_match map].
  destruct (atom_ok icase a c); cbn [length].
  - replace (S (length s) - length s)%nat with 1%nat by lia.
    by rewrite IH.
  - by rewrite IH.
Qed.

Lemma replace_punct (s : str) :
  replaceWith false re_punct (js " ") s = map punct_to_space s.
Proof.
  unfold replaceWith, replaceAll, re_punct. change (js " ") with [32%N].
  rewrite replace_go_atom. apply map_ext. intros c.
  change (AClass false [only "."; only ","])
    with (AClass false [(46, 46); (44, 44)]%N).
  unfold punct_to_space, atom_ok, in_ranges.
  cbn [existsb fst snd xorb andb orb].
  destruct (N.leb_spec 46 c), (N.leb_spec c 46), (N.eqb_spec c 46),
    (N.leb_spec 44 c), (N.leb_spec c 44), (N.eqb_spec c 44); simpl; lia || done.
Qed.

Lemma punct_to_space_no_backslash (s : str) :
  Forall (fun c => c <> 92%N) s ->
  Forall (fun c => c <> 92%N) (map punct_to_space s).
Proof.
  intros H. apply Forall_map. eapply Forall_impl; [exact H|].
  intros c Hc. unfold punct_to_space. by destruct (_ || _)%N.
Qed.

Lemma alias_match_nil : alias_match ALIASES [] = None.
Proof. reflexivity. Qed.

(** What the alias loop returns is the value of the first entry whose key
    is a prefix of the name. *)
Lemma alias_match_first (entries : list (str * str)) (lowerName key value : str) :
  (key, value) ∈ entries -> startsWith lowerName key = true ->
  exists (i : nat) (key' value' : str),
    entries !! i = Some (key', value')
    /\ startsWith lowerName key' = true
    /\ (forall (j : nat) (k v : str),
          (j < i)%nat -> entries !! j = Some (k, v) ->
          startsWith lowerName k = false)
    /\ alias_match entries lowerName = Some value'.
Proof.
  induction entries as [|[k v] entries IH]; [by intros ?%elem_of_nil|].
  intros Hin Hkey. simpl.
  destruct (startsWith lowerName k) eqn:E.
  - exists 0%nat, k, v. repeat split; [done|]. intros j ? ? Hj. lia.
  - apply elem_of_cons in Hin as [Heq|Hin]; [congruence|].
    destruct (IH Hin Hkey) as (i & k' & v' & Hi & Hs & Hfirst & Hm).
    exists (S i), k', v'. repeat split; [done..| |done].
    intros [|j] k0 v0 Hj; simpl.
    + by intros [= <- <-].
    + apply Hfirst. lia.
Qed.

Lemma alias_match_value (entries : list (str * str)) (lowerName value : str) :
  alias_match entries lowerName = Some value -> value ∈ map snd entries.
Proof.
  induction entries as [|[k v] entries IH]; simpl; [done|].
  destruct (startsWith lowerName k).
  - intros [= ->]. left.
  - intros H. right. by apply IH.
Qed.

Lemma startsWith_nil (key : str) : startsWith [] key = true -> key = [].
Proof. by destruct key. Qed.

(** ** Replacing a literal text *)

Lemma startsWith_app (s key : str) :
  startsWith s key = true <-> exists t : str, s = key ++ t.
Proof.
  revert s. induction key as [|k key IH]; intros s; simpl.
  - split; [by exists s|by destruct s].
  - destruct s as [|c s]; [split; [done|by intros [t ?]]|]. simpl.
    rewrite andb_true_iff, N.eqb_eq, IH. split.
    + intros [-> [t ->]]. by exists t.
    + intros [t [= -> ->]]. split; [done|by exists t].
Qed.

Lemma rmatch_literal (total : nat) (cs s : str) :
  rmatch false total (literal cs) s
  = if startsWith s cs then [drop (length cs) s] else [].
Proof.
  revert s. induction cs as [|k cs IH]; intros s; [by destruct s|].
  change (literal (k :: cs)) with (RSeq (RAtom (AChar k)) (literal cs)).
  destruct s as [|c s]; [done|].
  cbn [rmatch one_match atom_ok startsWith length drop].
  destruct (c =? k)%N; [|done]. cbn [flat_map andb].
  rewrite IH, app_nil_r. done.
Qed.

Lemma replace_go_literal_step (total : nat) (cs : str) (f : str -> str)
    (c : N) (s : str) :
  cs <> [] ->
  replace_go false total (literal cs) f 0 (c :: s)
  = if startsWith (c :: s) cs
    then f cs ++ replace_go false total (literal cs) f (length cs - 1) s
    else c :: replace_go false total (literal cs) f 0 s.
Proof.
  intros Hcs. cbn [replace_go]. rewrite rmatch_literal.
  destruct (startsWith (c :: s) cs) eqn:E; [|done].
  apply startsWith_app in E as [t E].
  assert (Hlen : (length (c :: s) - length (drop (length cs) (c :: s))
                  = S (length cs - 1))%nat).
  { rewrite length_drop, E, length_app. destruct cs; [done|]. simpl. lia. }
  rewrite Hlen.
  replace (S (length cs - 1)) with (length cs) by (destruct cs; [done|simpl; lia]).
  by rewrite E, take_app_length.
Qed.

(** The replacement function is only ever applied to the literal. *)
Lemma replace_go_literal_ext (total : nat) (cs : str) (f : str -> str)
    (k : nat) (s : str) :
  cs <> [] ->
  replace_go false total (literal cs) f k s
  = replace_go false total (literal cs) (fun _ => f cs) k s.
Proof.
  intros Hcs. revert k. induction s as [|c s IH]; intros k.
  - destruct k; [|done]. cbn [replace_go]. rewrite rmatch_literal.
    by destruct cs.
  - destruct k as [|k]; [|apply IH].
    rewrite !replace_go_literal_step by done.
    destruct (startsWith (c :: s) cs); by rewrite IH.
Qed.

(** Replacing a literal by a text with white space at the same places
    leaves the white space of the subject where it is. *)
Lemma replace_go_literal_mask (total : nat) (cs by_ : str) (k : nat) (s : str) :
  cs <> [] ->
  isWhiteSpace <$> by_ = isWhiteSpace <$> cs ->
  isWhiteSpace <$> replace_go false total (literal cs) (fun _ => by_) k s
  = drop k (isWhiteSpace <$> s).
Proof.
  intros Hcs Hby. revert k. induction s as [|c s IH]; intros k.
  - destruct k; cbn [replace_go]; [|done]. rewrite rmatch_literal.
    by destruct cs.
  - destruct k as [|k]; [|apply IH].
    rewrite replace_go_literal_step by done.
    destruct (startsWith (c :: s) cs) eqn:E.
    + apply startsWith_app in E as [t E].
      rewrite fmap_app, Hby, IH, drop_0.
      change (isWhiteSpace c :: (isWhiteSpace <$> s)) with (isWhiteSpace <$> c :: s).
      rewrite E, fmap_app. destruct cs as [|d cs]; [done|].
      injection E as -> ->. cbn [length]. rewrite Nat.sub_succ, Nat.sub_0_r.
      rewrite fmap_app, drop_app_length'; [done|]. by rewrite length_fmap.
    + rewrite fmap_cons, IH. done.
Qed.

Lemma trimmed_mask (a b : str) :
  isWhiteSpace <$> a = isWhiteSpace <$> b -> trimmed b -> trimmed a.
Proof.
  intros H [Hh Hl]. split; intros c Hc.
  - destruct a as [|c' a]; [done|]. injection Hc as ->.
    destruct b as [|d b]; [done|]. injection H as H _.
    rewrite H. by apply Hh.
  - assert (E : last (isWhiteSpace <$> a) = Some (isWhiteSpace c))
      by by rewrite fmap_last, Hc.
    rewrite H, fmap_last in E.
    destruct (last b) as [d|] eqn:Ed; [|done].
    injection E as E. rewrite <- E. by apply Hl.
Qed.

(** A replacement whose texts satisfy [P] keeps [P] on every code unit. *)
Lemma replace_go_Forall (P : N -> Prop) (icase : bool) (total : nat) (r : regex)
    (f : str -> str) (k : nat) (s : str) :
  (forall m : str, Forall P (f m)) -> Forall P s ->
  Forall P (replace_go icase total r f k s).
Proof.
  intros Hf. revert k. induction s as [|c s IH]; intros k Hs.
  - destruct k; cbn [replace_go]; [|done].
    destruct (rmatch icase total r []); [done|apply Hf].
  - apply Forall_cons in Hs as [Hc Hs].
    destruct k as [|k]; cbn [replace_go]; [|by apply IH].
    destruct (rmatch icase total r (c :: s)) as [|rest l].
    + constructor; [done|by apply IH].
    + destruct (length (c :: s) - length rest)%nat.
      * apply Forall_app. split; [apply Hf|]. constructor; [done|by apply IH].
      * apply Forall_app. split; [apply Hf|by apply IH].
Qed.

Lemma alias_values_ind (P : str -> Prop) :
  P (js "Boehringer Ingelheim") -> P (js "Magistrat Wien") ->
  P (js "Wiener Linien") -> P (js "Magenta Telekom") ->
  forall value : str, value ∈ map snd ALIASES -> P value.
Proof.
  intros H1 H2 H3 H4 value Hin. apply list_elem_of_In in Hin. simpl in Hin.
  repeat (destruct Hin as [<-|Hin]; [assumption|]). done.
Qed.

Lemma trimmed_literal (s : str) :
  match head s, last s with
  | Some c, Some d => isWhiteSpace c = false /\ isWhiteSpace d = false
  | _, _ => True
  end -> trimmed s.
Proof.
  intros H. split; intros c Hc.
  - rewrite Hc in H. destruct (last s) as [d|] eqn:E; [tauto|].
    apply last_None in E. by subst s.
  - destruct (head s) as [d|] eqn:E.
    + rewrite Hc in H. tauto.
    + apply head_None in E. by subst s.
Qed.

(** ** The replacements of [generateSlug] *)

Lemma star_matches_head (p : N -> bool) (s : str) :
  exists l : list str, star_matches p s = skip_while p s :: l.
Proof.
  induction s as [|c s [l IH]]; simpl; [by exists []|].
  destruct (p c); [|by exists []]. rewrite IH. by eexists.
Qed.

Lemma skip_while_suffix (p : N -> bool) (s : str) :
  exists a : str, s = a ++ skip_while p s /\ Forall (fun c => p c = true) a.
Proof.
  induction s as [|c s (a & IH & Ha)]; simpl; [by exists []|].
  destruct (p c) eqn:E; [|by exists []].
  exists (c :: a). split; [simpl; by rewrite <- IH|by constructor].
Qed.

Lemma skip_while_head (p : N -> bool) (s : str) (c : N) :
  head (skip_while p s) = Some c -> p c = false.
Proof.
  induction s as [|d s IH]; simpl; [done|].
  destruct (p d) eqn:E; [done|]. simpl. congruence.
Qed.

(** Passing over the rest of a match. *)
Lemma replace_go_skip (icase : bool) (total : nat) (r : regex) (f : str -> str)
    (a b s : str) :
  s = a ++ b ->
  replace_go icase total r f (length a) s = replace_go icase total r f 0 b.
Proof. intros ->. induction a as [|c a IH]; [done|]. simpl. apply IH. Qed.

Lemma non_alnum_ok (c : N) :
  atom_ok false (AClass true [range "a" "z"; range "0" "9"]) c = negb (alnum c).
Proof.
  change (AClass true [range "a" "z"; range "0" "9"])
    with (AClass true [(97, 122); (48, 57)]%N).
  unfold atom_ok, in_ranges, alnum. cbn [existsb fst snd andb orb].
  rewrite !orb_false_r. by destruct (_ || _).
Qed.

(** The second replacement of [generateSlug] is [collapse]. *)
Lemma replace_non_alnum_go (total : nat) (s : str) :
  replace_go false total re_non_alnum (fun _ => js "-") 0 s = collapse false s
  /\ replace_go false total re_non_alnum (fun _ => js "-")
       (length s - length (skip_while (fun c => negb (alnum c)) s)) s
     = collapse true s.
Proof.
  induction s as [|c s [IH0 IH1]]; [done|].
  unfold re_non_alnum in *. cbn [replace_go rmatch collapse skip_while].
  rewrite non_alnum_ok.
  destruct (alnum c) eqn:E; cbn [negb].
  - rewrite Nat.sub_diag. by rewrite IH0.
  - destruct (star_matches_head (atom_ok false (AClass true [range "a" "z"; range "0" "9"])) s)
      as [l Hl].
    rewrite Hl.
    assert (Hskip : skip_while (atom_ok false (AClass true [range "a" "z"; range "0" "9"])) s
                    = skip_while (fun c => negb (alnum c)) s).
    { clear. induction s as [|c s IH]; [done|]. cbn [skip_while].
      rewrite non_alnum_ok. destruct (negb (alnum c)); [apply IH|done]. }
    rewrite Hskip.
    destruct (skip_while_suffix (fun c => negb (alnum c)) s) as (a & Ha & _).
    assert (Hlen : (length (c :: s) - length (skip_while (fun c => negb (alnum c)) s)
                    = S (length s - length (skip_while (fun c => negb (alnum c)) s)))%nat).
    { rewrite Ha at 1 3. cbn [length]. rewrite length_app. lia. }
    rewrite Hlen. cbn [replace_go]. by rewrite IH1.
Qed.

Lemma replace_non_alnum (s : str) :
  replaceWith false re_non_alnum (js "-") s = collapse false s.
Proof. apply replace_non_alnum_go. Qed.

Lemma flat_map_singleton {A : Type} (l : list A) :
  flat_map (fun x => [x]) l = l.
Proof. induction l as [|x l IH]; [done|]. simpl. by rewrite IH. Qed.

Lemma flat_map_at_end (g : str -> list str) (p : N -> bool) (s : str) :
  g [] = [[]] -> (forall (c : N) (r : str), g (c :: r) = []) ->
  flat_map g (star_matches p s) = if forallb p s then [[]] else [].
Proof.
  intros Hnil Hcons. induction s as [|c s IH]; simpl.
  - by rewrite Hnil.
  - destruct (p c); simpl; [|by rewrite Hcons].
    by rewrite flat_map_app, IH; simpl; rewrite Hcons, app_nil_r.
Qed.

Lemma edge_hyphens_no_match (total : nat) (s : str) :
  (forall c, head s = Some c -> is_hyphen c = false) ->
  rmatch false total re_edge_hyphens s = [].
Proof.
  destruct s as [|c s]; intros H.
  - by apply rmatch_nil.
  - apply rmatch_no_start; [done|]. specialize (H c eq_refl).
    unfold is_hyphen in H. unfold re_edge_hyphens, rseq.
    cbn [foldr can_start nullable atom_ok ch orb andb].
    change (N_of_ascii "-") with 45%N. by rewrite H.
Qed.

Lemma edge_hyphens_at_start (s : str) :
  exists l : list str,
    rmatch false (length (45%N :: s)) re_edge_hyphens (45%N :: s)
    = skip_while is_hyphen s :: l.
Proof.
  unfold re_edge_hyphens, rseq. cbn [foldr rmatch].
  rewrite Nat.eqb_refl. cbn [flat_map].
  change (atom_ok false (ch "-")) with is_hyphen.
  change (is_hyphen 45) with true. cbn iota.
  destruct (star_matches_head is_hyphen s) as [l Hl].
  rewrite app_nil_r, flat_map_singleton, Hl. by eexists.
Qed.

Lemma edge_hyphens_inside (total : nat) (s : str) :
  length (45%N :: s) <> total ->
  rmatch false total re_edge_hyphens (45%N :: s)
  = if forallb is_hyphen s then [[]] else [].
Proof.
  intros Hlen. unfold re_edge_hyphens, rseq. cbn [foldr rmatch].
  apply Nat.eqb_neq in Hlen. rewrite Hlen.
  cbn [flat_map app].
  change (atom_ok false (ch "-")) with is_hyphen.
  change (is_hyphen 45) with true. cbn iota.
  by apply (flat_map_at_end _ is_hyphen).
Qed.

Lemma is_hyphen_eq (c : N) : is_hyphen c = true -> c = 45%N.
Proof. apply N.eqb_eq. Qed.

(** Away from the start the third replacement removes the hyphens the
    string ends with. *)
Lemma replace_edge_hyphens_inside (total : nat) (s : str) :
  (length s < total)%nat ->
  replace_go false total re_edge_hyphens (fun _ => []) 0 s
  = strip_trailing_hyphens s.
Proof.
  induction s as [|c s IH]; intros Hlen.
  - cbn [replace_go]. by rewrite edge_hyphens_no_match.
  - cbn [replace_go strip_trailing_hyphens forallb].
    destruct (is_hyphen c) eqn:E.
    + apply is_hyphen_eq in E as ->. rewrite edge_hyphens_inside by lia.
      cbn [andb]. destruct (forallb is_hyphen s).
      * cbn [length]. rewrite Nat.sub_0_r. cbn [app].
        rewrite (replace_go_skip _ _ _ _ s [] s) by by rewrite app_nil_r.
        cbn [replace_go]. by rewrite edge_hyphens_no_match.
      * rewrite IH by (simpl in Hlen; lia). done.
    + rewrite edge_hyphens_no_match by (by intros ? [= <-]).
      cbn [andb]. rewrite IH by (simpl in Hlen; lia). done.
Qed.

(** The third replacement of [generateSlug] removes the hyphens at both
    ends. *)
Lemma replace_edge_hyphens (s : str) :
  replaceWith false re_edge_hyphens [] s
  = strip_trailing_hyphens (skip_while is_hyphen s).
Proof.
  unfold replaceWith, replaceAll. destruct s as [|c s].
  - cbn [replace_go]. by rewrite edge_hyphens_no_match.
  - cbn [skip_while]. destruct (is_hyphen c) eqn:E.
    + apply is_hyphen_eq in E as ->. cbn [replace_go].
      destruct (edge_hyphens_at_start s) as [l ->].
      destruct (skip_while_suffix is_hyphen s) as (a & Ha & _).
      assert (Hlen : (length (45%N :: s) - length (skip_while is_hyphen s)
                      = S (length a))%nat).
      { rewrite Ha at 1. cbn [length]. rewrite length_app. lia. }
      rewrite Hlen. cbn [app].
      rewrite (replace_go_skip _ _ _ _ a (skip_while is_hyphen s) s Ha).
      apply replace_edge_hyphens_inside.
      rewrite Ha at 2. cbn [length]. rewrite length_app. lia.
    + cbn [replace_go strip_trailing_hyphens forallb].
      rewrite edge_hyphens_no_match by (by intros ? [= <-]).
      rewrite E. cbn [andb].
      by rewrite replace_edge_hyphens_inside by (simpl; lia).
Qed.

(** ** The shape of a slug *)

Lemma alnum_not_hyphen (c : N) : alnum c = true -> is_hyphen c = false.
Proof.
  unfold alnum, is_hyphen.
  rewrite orb_true_iff, !andb_true_iff, !N.leb_le. intros H.
  apply N.eqb_neq. lia.
Qed.

Lemma slug_char_cases (c : N) :
  slug_char c = true -> is_hyphen c = false -> alnum c = true.
Proof. unfold slug_char. intros H E. by rewrite E, orb_false_r in H. Qed.

Lemma collapse_shape (in_run : bool) (s : str) :
  Forall (fun c => slug_char c = true) (collapse in_run s)
  /\ no_double_hyphen (collapse in_run s) = true
  /\ (in_run = true ->
      forall c, head (collapse in_run s) = Some c -> is_hyphen c = false).
Proof.
  revert in_run. induction s as [|c s IH]; intros in_run; [done|].
  cbn [collapse]. destruct (alnum c) eqn:E.
  - destruct (IH false) as (H1 & H2 & _). split; [|split].
    + constructor; [|done]. unfold slug_char. by rewrite E.
    + cbn [no_double_hyphen]. by rewrite (alnum_not_hyphen c E), H2.
    + intros _ d [= <-]. by apply alnum_not_hyphen.
  - destruct (IH true) as (H1 & H2 & H3). destruct in_run; [done|].
    split; [|split; [|done]].
    + by constructor.
    + cbn [no_double_hyphen]. rewrite H2.
      destruct (collapse true s) as [|d t]; [done|].
      by rewrite (H3 eq_refl d eq_refl).
Qed.

Lemma no_double_hyphen_app (a b : str) :
  no_double_hyphen (a ++ b) = true ->
  no_double_hyphen a = true /\ no_double_hyphen b = true.
Proof.
  induction a as [|c a IH]; [done|]. cbn [app no_double_hyphen].
  intros [H1 H2]%andb_true_iff. destruct (IH H2) as [Ha Hb].
  split; [|done]. rewrite Ha, andb_true_r.
  destruct a as [|d a]; [by rewrite andb_false_r|done].
Qed.

Lemma strip_trailing_hyphens_prefix (s : str) :
  exists b : str, s = strip_trailing_hyphens s ++ b.
Proof.
  induction s as [|c s [b IH]]; [by exists []|].
  cbn [strip_trailing_hyphens]. destruct (forallb is_hyphen (c :: s)).
  - by exists (c :: s).
  - exists b. simpl. by rewrite <- IH.
Qed.

Lemma strip_trailing_hyphens_nil (s : str) :
  strip_trailing_hyphens s = [] -> forallb is_hyphen s = true.
Proof.
  destruct s as [|c s]; [done|]. cbn [strip_trailing_hyphens].
  by destruct (forallb is_hyphen (c :: s)).
Qed.

Lemma strip_trailing_hyphens_last (s : str) (c : N) :
  last (strip_trailing_hyphens s) = Some c -> is_hyphen c = false.
Proof.
  induction s as [|d s IH]; [done|]. cbn [strip_trailing_hyphens].
  destruct (forallb is_hyphen (d :: s)) eqn:E; [done|].
  destruct (strip_trailing_hyphens s) as [|e t] eqn:Et.
  - intros [= <-]. apply strip_trailing_hyphens_nil in Et.
    cbn [forallb] in E. by rewrite Et, andb_true_r in E.
  - rewrite last_cons_cons. apply IH.
Qed.

Lemma strip_trailing_hyphens_head (s : str) (c : N) :
  head (strip_trailing_hyphens s) = Some c -> head s = Some c.
Proof.
  destruct s as [|d s]; [done|]. cbn [strip_trailing_hyphens].
  by destruct (forallb is_hyphen (d :: s)).
Qed.

(** Letters, digits and single hyphens, the last character not a hyphen:
    that is the shape of the pattern. *)
Lemma slug_shape_intro (s : str) :
  Forall (fun c => slug_char c = true) s ->
  no_double_hyphen s = true ->
  (forall c, last s = Some c -> is_hyphen c = false) ->
  slug_shape s = true.
Proof.
  induction s as [|c s IH]; [done|].
  intros [Hc Hs]%Forall_cons [Hd Hn]%andb_true_iff Hl.
  assert (IH' : slug_shape s = true).
  { apply IH; [done..|]. intros d Hd'. apply Hl.
    destruct s; [done|]. by rewrite last_cons_cons. }
  cbn [slug_shape]. rewrite IH'.
  destruct (alnum c) eqn:E; [done|].
  assert (Eh : is_hyphen c = true).
  { unfold slug_char in Hc. by rewrite E in Hc. }
  rewrite Eh in Hd. pose proof Eh as Eh'. unfold is_hyphen in Eh'. rewrite Eh'.
  destruct s as [|d s].
  - by rewrite (Hl c eq_refl) in Eh.
  - apply Forall_cons in Hs as [Hd' _]. cbn [andb] in Hd |- *.
    apply negb_true_iff in Hd. by rewrite (slug_char_cases d Hd' Hd).
Qed.

(** ** The contract of [normalizeCorrespondent] *)
Section Normalize.

Variable toLowerCase : str -> str.
Variable toUpperCase : str -> str.

(** White space has no case mapping: a blank string stays blank. *)
Hypothesis toLowerCase_blank :
  forall s : str, trim s = [] -> trim (toLowerCase s) = [].

(** The upper-case form of the four ASCII characters backslash, b,
    backslash, w. *)
Hypothesis toUpperCase_word_start :
  toUpperCase (js "\b\w") = js "\B\W".

Local Abbreviation normalize := (normalizeCorrespondent toLowerCase toUpperCase).
Local Abbreviation strip := (JS.strip toUpperCase).

(** On a name without backslash the chain of replacements only turns dots
    and commas into spaces and trims. *)
Lemma strip_no_backslash (name : str) :
  Forall (fun c => c <> 92%N) name ->
  strip name = trim (map punct_to_space name).
Proof.
  intros H. apply punct_to_space_no_backslash in H.
  unfold JS.strip. cbv zeta. rewrite replace_punct.
  set (m := map punct_to_space name) in *.
  assert (Ht : Forall (fun c => c <> 92%N) (trim m)) by by apply trim_Forall.
  unfold replaceWith, re_amp, re_and, re_spaces, suffixRe, re_trailing,
    re_word_start.
  rewrite (replaceAll_backslash_led false _ _ m) by done.
  rewrite (replaceAll_backslash_led true _ _ m) by done.
  rewrite (replaceAll_backslash_led false _ _ m) by done.
  rewrite (replaceAll_backslash_led true _ _ (trim m)) by done.
  rewrite (replaceAll_backslash_led false _ _ (trim m)) by done.
  rewrite (trim_id (trim m)) by apply trim_trimmed.
  rewrite (replaceAll_backslash_led false _ _ (trim m)) by done.
  rewrite (trim_id (trim m)) by apply trim_trimmed.
  by rewrite (replaceAll_backslash_led false _ _ (trim m)).
Qed.

(** C1: for every input that is not a string, or that is a string with
    nothing but white space (the empty string included), [normalize]
    returns the string Unknown.  The function is total, so no input
    raises. *)
Theorem normalize_blank_is_unknown (v : value) :
  is_string v = false \/ (exists s : str, v = VString s /\ trim s = []) ->
  normalize v = js "Unknown".
Proof.
  intros [H|(s & -> & Hs)]; unfold normalizeCorrespondent.
  - rewrite H. by rewrite orb_true_r.
  - destruct s as [|c s]; [done|]. cbn [truthy is_string typeof negb orb].
    rewrite (toLowerCase_blank _ Hs), alias_match_nil.
    apply trim_nil in Hs.
    assert (Hbs : Forall (fun c => c <> 92%N) (c :: s)).
    { eapply Forall_impl; [exact Hs|]. intros d Hd ->. done. }
    rewrite (strip_no_backslash _ Hbs).
    assert (Hblank : trim (map punct_to_space (c :: s)) = []).
    { apply trim_nil, Forall_map. eapply Forall_impl; [exact Hs|].
      intros d Hd. unfold punct_to_space. by destruct (_ || _)%N. }
    by rewrite Hblank.
Qed.

(** C2: when the lower-cased, trimmed name starts with a key of the alias
    table, [normalize] returns the value of the first such key in the
    order of the table, as it stands in the table. *)
Theorem normalize_alias_first_match (name key value : str) :
  (key, value) ∈ ALIASES ->
  startsWith (trim (toLowerCase name)) key = true ->
  exists (i : nat) (key' value' : str),
    ALIASES !! i = Some (key', value')
    /\ startsWith (trim (toLowerCase name)) key' = true
    /\ (forall (j : nat) (k v : str),
          (j < i)%nat -> ALIASES !! j = Some (k, v) ->
          startsWith (trim (toLowerCase name)) k = false)
    /\ normalize (VString name) = value'.
Proof.
  intros Hin Hkey.
  destruct (alias_match_first _ _ _ _ Hin Hkey) as (i & k' & v' & Hi & Hs & Hfirst & Hm).
  exists i, k', v'. repeat split; [done..|].
  unfold normalizeCorrespondent. destruct name as [|c name].
  - rewrite (toLowerCase_blank [] eq_refl) in Hkey.
    apply startsWith_nil in Hkey. subst key.
    exfalso. revert Hin. clear. intros Hin.
    apply list_elem_of_In in Hin. simpl in Hin.
    repeat (destruct Hin as [Hin|Hin]; [discriminate Hin|]). done.
  - cbn [truthy is_string typeof negb orb]. by rewrite Hm.
Qed.

(** C5: the result of [normalize] is never the empty string; when the
    chain of replacements leaves nothing, the result is Unknown. *)
Theorem normalize_never_empty :
  (forall v : value, normalize v <> [])
  /\ (forall name : str,
        alias_match ALIASES (trim (toLowerCase name)) = None ->
        JS.strip toUpperCase name = [] ->
        normalize (VString name) = js "Unknown").
Proof.
  split.
  - intros v. unfold normalizeCorrespondent.
    destruct (negb (truthy v) || negb (is_string v)); [done|].
    destruct v; try done.
    destruct (alias_match ALIASES _) as [value|] eqn:E.
    + apply alias_match_value in E. intros ->.
      apply list_elem_of_In in E. simpl in E.
      repeat (destruct E as [E|E]; [discriminate E|]). done.
    + by destruct (JS.strip toUpperCase s).
  - intros name Ha Hs. unfold normalizeCorrespondent.
    destruct (negb _ || negb _); [done|]. by rewrite Ha, Hs.
Qed.

(** X15: on a name without backslash and without alias the result is the
    name with dots and commas turned into spaces, trimmed: nothing else
    is removed and no letter changes case. *)
Lemma normalize_without_backslash (name : str) :
  Forall (fun c => c <> 92%N) name ->
  alias_match ALIASES (trim (toLowerCase name)) = None ->
  normalize (VString name)
  = match trim (map punct_to_space name) with
    | [] => js "Unknown"
    | c :: n => c :: n
    end.
Proof.
  intros Hb Ha. unfold normalizeCorrespondent.
  destruct name as [|c name]; [done|].
  cbn [truthy is_string typeof negb orb].
  rewrite Ha, strip_no_backslash by done.
  by destruct (trim (map punct_to_space (c :: name))).
Qed.

(** The three outcomes of [normalize]. *)
Lemma normalize_cases (v : value) :
  normalize v = js "Unknown"
  \/ normalize v ∈ map snd ALIASES
  \/ (exists name : str, v = VString name /\ normalize v = strip name /\ strip name <> []).
Proof.
  unfold normalizeCorrespondent.
  destruct (negb (truthy v) || negb (is_string v)); [by left|].
  destruct v; try by left.
  destruct (alias_match ALIASES _) as [value|] eqn:E.
  - right; left. by apply alias_match_value in E.
  - destruct (strip s) as [|c n] eqn:En; [by left|].
    right; right. exists s. by rewrite En.
Qed.

Lemma strip_trimmed (name : str) : trimmed (strip name).
Proof.
  unfold JS.strip. cbv zeta. set (n := trim (replaceWith false re_trailing [] _)).
  change re_word_start with (literal (js "\b\w")). unfold replaceAll.
  rewrite replace_go_literal_ext by done. rewrite toUpperCase_word_start.
  apply (trimmed_mask _ n); [|apply trim_trimmed].
  by rewrite replace_go_literal_mask, drop_0.
Qed.

Lemma strip_no_punct (name : str) :
  Forall (fun c => c <> 46%N /\ c <> 44%N) (strip name).
Proof.
  unfold JS.strip. cbv zeta.
  change re_word_start with (literal (js "\b\w")). unfold replaceAll at 1.
  rewrite replace_go_literal_ext by done. rewrite toUpperCase_word_start.
  rewrite replace_punct. unfold replaceWith, replaceAll.
  repeat first
    [ apply trim_Forall
    | apply replace_go_Forall; [intros _; by repeat constructor|] ].
  apply Forall_map, Forall_forall. intros c _. unfold punct_to_space.
  destruct (N.eqb_spec c 46), (N.eqb_spec c 44); simpl; lia.
Qed.

(** A trimmed name without backslash, dot or comma passes through the
    chain of replacements unchanged. *)
Lemma strip_fixed (n : str) :
  trimmed n ->
  Forall (fun c => c <> 46%N /\ c <> 44%N) n ->
  Forall (fun c => c <> 92%N) n ->
  strip n = n.
Proof.
  intros Ht Hp Hb. rewrite strip_no_backslash by done.
  replace (map punct_to_space n) with n; [by apply trim_id|].
  symmetry. rewrite <- (map_id n) at 2. apply map_ext_Forall.
  eapply Forall_impl; [exact Hp|]. intros c [H1 H2]. unfold punct_to_space.
  by destruct (N.eqb_spec c 46), (N.eqb_spec c 44).
Qed.

(** C9: the result of [normalize] neither begins nor ends with white
    space. *)
Theorem normalize_trimmed (v : value) : trimmed (normalize v).
Proof.
  destruct (normalize_cases v) as [->|[H|(name & _ & -> & _)]].
  - by apply trimmed_literal.
  - revert H. generalize (normalize v).
    apply (alias_values_ind trimmed); by apply trimmed_literal.
  - apply strip_trimmed.
Qed.

(** X25: as the code is written, a result of [normalize] that starts with
    no alias key and holds no backslash is returned unchanged when it is
    normalised again. *)
Theorem normalize_stable (v : value) :
  alias_match ALIASES (trim (toLowerCase (normalize v))) = None ->
  Forall (fun c => c <> 92%N) (normalize v) ->
  normalize (VString (normalize v)) = normalize v.
Proof.
  intros Ha Hb.
  assert (Hfix : strip (normalize v) = normalize v /\ normalize v <> []).
  { clear Ha. revert Hb. generalize (normalize_cases v).
    generalize (normalize v) as n.
    intros n [->|[H|(name & _ & -> & Hne)]] Hb.
    - split; [|done]. apply strip_fixed; [by apply trimmed_literal|..];
        repeat constructor; done.
    - revert n H Hb.
      apply (alias_values_ind
               (fun n => Forall (fun c => c <> 92%N) n -> strip n = n /\ n <> []));
        intros Hb; (split; [|done]);
        (apply strip_fixed; [by apply trimmed_literal| |done]);
        repeat constructor; done.
    - split; [|done].
      apply strip_fixed; [apply strip_trimmed|apply strip_no_punct|done]. }
  destruct Hfix as [Hs Hne].
  unfold normalizeCorrespondent at 1.
  destruct (normalize v) as [|c n] eqn:E; [done|].
  cbn [truthy is_string typeof negb orb]. rewrite Ha, Hs. done.
Qed.

End Normalize.

(** ** The contract of [generateSlug] *)
Section Slug.

Variable toLowerCase : str -> str.
Variable normalizeNFD : str -> str.

(** The slug before it is cut to 50 code units. *)
Lemma generateSlug_steps (name : str) :
  generateSlug toLowerCase normalizeNFD name
  = take 50 (strip_trailing_hyphens (skip_while is_hyphen (collapse false
      (replaceWith false re_marks [] (normalizeNFD (toLowerCase name)))))).
Proof.
  unfold generateSlug, substring0.
  by rewrite replace_non_alnum, replace_edge_hyphens.
Qed.

Lemma uncut_slug_shape (s : str) :
  let slug := strip_trailing_hyphens (skip_while is_hyphen (collapse false s)) in
  Forall (fun c => slug_char c = true) slug
  /\ no_double_hyphen slug = true
  /\ (forall c, head slug = Some c -> is_hyphen c = false)
  /\ (forall c, last slug = Some c -> is_hyphen c = false).
Proof.
  destruct (collapse_shape false s) as (H1 & H2 & _).
  destruct (skip_while_suffix is_hyphen (collapse false s)) as (a & Ha & _).
  intros slug.
  destruct (strip_trailing_hyphens_prefix (skip_while is_hyphen (collapse false s)))
    as [b Hb].
  fold slug in Hb. rewrite Ha, Hb in H1, H2.
  apply Forall_app in H1 as [_ [H1 _]%Forall_app].
  apply no_double_hyphen_app in H2 as [_ [H2 _]%no_double_hyphen_app].
  split; [done|]. split; [done|]. split.
  - intros c Hc%strip_trailing_hyphens_head. by apply skip_while_head in Hc.
  - apply strip_trailing_hyphens_last.
Qed.

(** X16: what holds of every slug: at most 50 code units, each a
    lower-case letter, a digit or a hyphen, no hyphen first and no two
    hyphens in a row.  A slug that was not cut matches the pattern in
    full. *)
Lemma generateSlug_shape (name : str) :
  let slug := generateSlug toLowerCase normalizeNFD name in
  (length slug <= 50)%nat
  /\ Forall (fun c => slug_char c = true) slug
  /\ no_double_hyphen slug = true
  /\ (forall c, head slug = Some c -> is_hyphen c = false)
  /\ ((length slug < 50)%nat -> slug_shape slug = true).
Proof.
  intros slug. unfold slug. rewrite generateSlug_steps.
  set (s := replaceWith false re_marks [] _).
  destruct (uncut_slug_shape s) as (H1 & H2 & H3 & H4).
  set (u := strip_trailing_hyphens _) in *.
  split; [rewrite length_take; lia|].
  split; [by apply Forall_take|].
  split.
  { rewrite <- (take_drop 50 u) in H2. by apply no_double_hyphen_app in H2 as [? _]. }
  split.
  { intros c Hc. apply H3. destruct u; [done|]. done. }
  intros Hlen. rewrite length_take in Hlen.
  rewrite take_ge by lia. by apply slug_shape_intro.
Qed.

End Slug.

Lemma generateSlug_shape_witness :
  slug_shape (Latin1.generateSlug (js "Magenta Telekom")) = true.
Proof.
  apply (generateSlug_shape Latin1.toLowerCase Latin1.normalizeNFD).
  vm_compute. lia.
Defined.

(** ** The Latin-1 library functions satisfy what the contract assumes *)

Lemma lower1_white_space (c : N) :
  isWhiteSpace c = true -> Latin1.lower1 c = c.
Proof.
  intros H%white_space_cases. unfold Latin1.lower1.
  destruct (N.leb_spec 65 c), (N.leb_spec c 90), (N.leb_spec 192 c),
    (N.leb_spec c 222); simpl; try done; lia.
Qed.

Lemma Latin1_toLowerCase_blank (s : str) :
  trim s = [] -> trim (Latin1.toLowerCase s) = [].
Proof.
  rewrite !trim_nil. intros H. unfold Latin1.toLowerCase.
  apply Forall_map. eapply Forall_impl; [exact H|].
  intros c Hc. by rewrite lower1_white_space.
Qed.

Lemma Latin1_toUpperCase_word_start :
  Latin1.toUpperCase (js "\b\w") = js "\B\W".
Proof. reflexivity. Qed.

Lemma normalize_blank_is_unknown_witness :
  Latin1.normalizeCorrespondent (VString (js "   ")) = js "Unknown"
  /\ Latin1.normalizeCorrespondent VNull = js "Unknown".
Proof.
  split; apply (normalize_blank_is_unknown _ _ Latin1_toLowerCase_blank).
  - right. exists (js "   "). split; reflexivity.
  - left. reflexivity.
Defined.

Lemma normalize_alias_first_match_witness :
  exists (i : nat) (key' value' : str),
    ALIASES !! i = Some (key', value')
    /\ startsWith (trim (Latin1.toLowerCase (js " Magenta Telekom AG "))) key' = true
    /\ (forall (j : nat) (k v : str),
          (j < i)%nat -> ALIASES !! j = Some (k, v) ->
          startsWith (trim (Latin1.toLowerCase (js " Magenta Telekom AG "))) k = false)
    /\ Latin1.normalizeCorrespondent (VString (js " Magenta Telekom AG ")) = value'.
Proof.
  apply (normalize_alias_first_match _ Latin1.toUpperCase Latin1_toLowerCase_blank
           (js " Magenta Telekom AG ") (js "magenta") (js "Magenta Telekom")).
  - apply list_elem_of_In. vm_compute. tauto.
  - reflexivity.
Defined.

Lemma normalize_never_empty_witness :
  Latin1.normalizeCorrespondent (VString (js " . ")) = js "Unknown"
  /\ Latin1.normalizeCorrespondent (VString (js "Acme")) <> [].
Proof.
  destruct (normalize_never_empty Latin1.toLowerCase Latin1.toUpperCase) as [H1 H2].
  split; [apply H2; reflexivity|apply H1].
Defined.

Lemma normalize_trimmed_witness :
  trimmed (Latin1.normalizeCorrespondent (VString (js "  x\b\w y, "))).
Proof.
  apply (normalize_trimmed _ _ Latin1_toUpperCase_word_start).
Defined.

Lemma normalize_stable_witness :
  Latin1.normalizeCorrespondent
    (VString (Latin1.normalizeCorrespondent (VString (js " Acme, Ltd. "))))
  = Latin1.normalizeCorrespondent (VString (js " Acme, Ltd. ")).
Proof.
  apply (normalize_stable _ _ Latin1_toUpperCase_word_start).
  - reflexivity.
  - vm_compute. repeat constructor; discriminate.
Defined.

(** ** The program on examples *)

(** The replace loop on the two textbook cases of an empty match: "aaa"
    with the pattern a* gives two replacements, "abc" with x* one before
    each letter and one at the end. *)
Example replace_empty_matches :
  replaceWith false (RStar (ch "a")) (js "-") (js "aaa") = js "--"
  /\ replaceWith false (RStar (ch "x")) (js "-") (js "abc") = js "-a-b-c-".
Proof. split; reflexivity. Qed.

(** The scenarios of the specification that the code meets. *)
Example normalize_scenarios :
  Latin1.normalizeCorrespondent (VString (js "Boehringer Ingelheim RCV & Co"))
  = js "Boehringer Ingelheim"
  /\ Latin1.normalizeCorrespondent (VString []) = js "Unknown"
  /\ Latin1.normalizeCorrespondent VNull = js "Unknown"
  /\ Latin1.generateSlug (js "Magenta Telekom") = js "magenta-telekom".
Proof. repeat split; vm_compute; reflexivity. Qed.

(** C3: on the name Acme GmbH & Co the code returns the name as it came:
    neither the ampersand nor a legal suffix is removed, because every
    pattern that should remove them asks for a backslash first. *)
Theorem normalize_acme_unchanged :
  Latin1.normalizeCorrespondent (VString (js "Acme GmbH & Co"))
  = js "Acme GmbH & Co".
Proof. vm_compute. reflexivity. Qed.

(** C4: a name of 49 letters, a space and one more letter gives a slug of
    50 characters that ends with a hyphen: the hyphens are trimmed before
    the slug is cut to 50 characters. *)
Theorem generateSlug_trailing_hyphen :
  Latin1.generateSlug (replicate 49 97%N ++ js " b") = replicate 49 97%N ++ js "-"
  /\ slug_shape (Latin1.generateSlug (replicate 49 97%N ++ js " b")) = false.
Proof. split; vm_compute; reflexivity. Qed.

(** C6: the legal suffix stays on the name with the umlaut (code unit 196),
    and its slug keeps a hyphen where the combining mark (code unit 776)
    stood: the class that should remove the marks holds ASCII characters
    instead. *)
Theorem normalize_slug_umlaut :
  Latin1.normalizeCorrespondent (VString (196%N :: js "rger GmbH"))
  = 196%N :: js "rger GmbH"
  /\ Latin1.generateSlug (196%N :: js "rger") = js "a-rger".
Proof. split; vm_compute; reflexivity. Qed.

(** C7: a name in lower case is returned in lower case. *)
Theorem normalize_keeps_lower_case :
  Latin1.normalizeCorrespondent (VString (js "acme of the north"))
  = js "acme of the north".
Proof. vm_compute. reflexivity. Qed.

(** C8: the result for the name a, backslash, plus, backslash,
    backslash, plus, backslash starts with no alias key, and normalising
    it again changes it: the trailing-connector pattern, as the engine
    receives it, asks for a backslash on either side of the plus and
    removes one such group at the end of the name on each run. *)
Lemma normalize_not_idempotent :
  let n := Latin1.normalizeCorrespondent (VString (js "a\+\\+\")) in
  n = js "a\+\"
  /\ alias_match ALIASES (trim (Latin1.toLowerCase n)) = None
  /\ Latin1.normalizeCorrespondent (VString n) = js "a"
  /\ Latin1.normalizeCorrespondent (VString n) <> n.
Proof. vm_compute. repeat split; discriminate. Qed.


End JSFacts.

(** * Facts about [apply_fixes] *)
Module PyFacts.
Import Py.

Lemma bind_Ok {A B : Type} (m : result A) (k : A -> result B) (b : B) :
  m ≫= k = Ok b -> exists a : A, m = Ok a /\ k a = Ok b.
Proof. destruct m as [a|e]; [by exists a|done]. Qed.

Lemma traverse_Ok {A B : Type} (f : A -> result B) (l : list A) (l' : list B) :
  traverse f l = Ok l' ->
  length l' = length l
  /\ forall (i : nat) (x : A), l !! i = Some x ->
       exists y : B, l' !! i = Some y /\ f x = Ok y.
Proof.
  revert l'. induction l as [|x l IH]; intros l'; simpl.
  - intros [= <-]. by split.
  - intros (y & Hy & (l'' & Hl & [= <-])%bind_Ok)%bind_Ok.
    destruct (IH _ Hl) as [Hlen Hlook]. split; [simpl; by rewrite Hlen|].
    intros [|i] x'; simpl.
    + intros [= <-]. by exists y.
    + apply Hlook.
Qed.

Lemma traverse_total {A B : Type} (P : A -> Prop) (Q : B -> Prop)
    (f : A -> result B) (l : list A) :
  (forall x : A, P x -> exists y : B, f x = Ok y /\ Q y) ->
  Forall P l ->
  exists l' : list B, traverse f l = Ok l' /\ Forall Q l'.
Proof.
  intros Hf. induction 1 as [|x l Hx _ (l' & Hl & HQ)]; simpl.
  - by exists [].
  - destruct (Hf x Hx) as (y & Hy & HQy).
    exists (y :: l'). rewrite Hy, Hl. split; [done|by constructor].
Qed.

Lemma frame_trans (a b c : json) : frame a b -> frame b c -> frame a c.
Proof.
  unfold frame. destruct a; try by intros -> ->.
  intros (l1 & -> & Hlen1 & H1) (l2 & -> & Hlen2 & H2).
  exists l2. split; [done|]. split; [congruence|].
  intros i x Hx Hp. apply H2; [|done]. by apply H1.
Qed.

Lemma for_each_frame (body : json -> result json) (nodes nodes' : json) :
  (forall x y : json, patched x = false -> body x = Ok y -> y = x) ->
  for_each body nodes = Ok nodes' -> frame nodes nodes'.
Proof.
  intros Hbody. unfold for_each.
  intros (items & Hitems & (items' & Htr & [= <-])%bind_Ok)%bind_Ok.
  destruct nodes; simpl in *; try done.
  injection Hitems as <-. apply traverse_Ok in Htr as [Hlen Hlook].
  exists items'. split; [done|]. split; [done|].
  intros i x Hx Hp. destruct (Hlook i x Hx) as (y & Hy & Hb).
  by rewrite (Hbody x y Hp Hb) in Hy.
Qed.

Lemma eq_str_unpatched (d : gmap string json) (target : string) :
  patched (JDict d) = false -> target ∈ PATCHED ->
  eq_str (match d !! "name" with Some x => x | None => JNull end) target = false.
Proof.
  unfold patched, node_name. destruct (d !! "name") as [name|]; [|done].
  intros H Hin. destruct (eq_str name target) eqn:E; [|done].
  rewrite <- H. symmetry. apply existsb_exists. exists target.
  split; [by apply list_elem_of_In|done].
Qed.

Ltac unpatched_body target :=
  let x := fresh "x" in let y := fresh "y" in let Hp := fresh "Hp" in
  intros x y Hp;
  unfold fix_pagination, fix_generate_storage_path, fix_get_storage_path_id,
    fix_check_correspondent, fix_create_correspondent;
  destruct x as [| | | | |d]; cbn [py_get mbind result_bind]; try done;
  rewrite (eq_str_unpatched d target Hp)
    by (apply list_elem_of_In; simpl; tauto);
  by intros [= <-].

(** ** The nodes of a well-formed workflow *)

Lemma is_node_inv (x : json) :
  is_node x = true ->
  exists (d p : gmap string json),
    x = JDict d /\ d !! "parameters" = Some (JDict p)
    /\ text_or_absent (p !! "jsCode") = true
    /\ text_or_absent (p !! "jsonBody") = true.
Proof.
  destruct x as [| | | | |d]; try done. simpl.
  destruct (d !! "parameters") as [[| | | | |p]|] eqn:E; try done.
  intros [H1 H2]%andb_true_iff. by exists d, p.
Qed.

Lemma is_node_parameters (d p : gmap string json) :
  is_node (JDict (<["parameters" := JDict p]> d))
  = text_or_absent (p !! "jsCode") && text_or_absent (p !! "jsonBody").
Proof. simpl. by rewrite lookup_insert_eq. Qed.

Lemma set_parameter_node (d p : gmap string json) (key : string) (value : json) :
  d !! "parameters" = Some (JDict p) ->
  set_parameter (JDict d) key value
  = Ok (JDict (<["parameters" := JDict (<[key := value]> p)]> d)).
Proof. intros H. unfold set_parameter. simpl. by rewrite H. Qed.

Lemma text_or_absent_inv (v : option json) (default : string) :
  text_or_absent v = true ->
  exists s : string, match v with Some x => x | None => JStr default end = JStr s.
Proof.
  destruct v as [[| | |s| |]|]; try done; intros _; [by exists s|by exists default].
Qed.

Lemma replace_in_parameter_node (x : json) (key old new : string) :
  key = "jsCode" \/ key = "jsonBody" ->
  is_node x = true ->
  exists y : json, replace_in_parameter x key old new = Ok y /\ is_node y = true.
Proof.
  intros Hkey Hx.
  destruct (is_node_inv x Hx) as (d & p & -> & Hd & Hc & Hb).
  unfold replace_in_parameter. cbn [py_getitem mbind result_bind].
  rewrite Hd. cbn [py_get mbind result_bind].
  assert (Ht : text_or_absent (p !! key) = true) by by destruct Hkey as [-> | ->].
  destruct (text_or_absent_inv _ "" Ht) as [s ->].
  cbn [py_contains mbind result_bind].
  destruct (is_substring "correspondent_name" s); [|by exists (JDict d)].
  cbn [py_replace mbind result_bind]. rewrite (set_parameter_node d p) by done.
  eexists. split; [done|]. rewrite is_node_parameters.
  destruct Hkey as [-> | ->].
  - rewrite lookup_insert_eq, lookup_insert_ne by done. simpl. exact Hb.
  - rewrite lookup_insert_eq, lookup_insert_ne by done. simpl.
    rewrite Hc. done.
Qed.

Lemma set_parameter_total (d p : gmap string json) (key : string) (value : json) :
  d !! "parameters" = Some (JDict p) ->
  text_or_absent (p !! "jsCode") = true ->
  text_or_absent (p !! "jsonBody") = true ->
  (key = "jsCode" \/ key = "jsonBody" -> exists s : string, value = JStr s) ->
  exists (d' p' : gmap string json),
    set_parameter (JDict d) key value = Ok (JDict d')
    /\ d' !! "parameters" = Some (JDict p')
    /\ text_or_absent (p' !! "jsCode") = true
    /\ text_or_absent (p' !! "jsonBody") = true.
Proof.
  intros Hd Hc Hb Hv. rewrite (set_parameter_node d p) by done.
  eexists _, _. split; [done|]. split; [by rewrite lookup_insert_eq|].
  split.
  - destruct (decide (key = "jsCode")) as [->|Hne].
    + rewrite lookup_insert_eq. destruct Hv as [s ->]; [by left|done].
    + by rewrite lookup_insert_ne.
  - destruct (decide (key = "jsonBody")) as [->|Hne].
    + rewrite lookup_insert_eq. destruct Hv as [s ->]; [by right|done].
    + by rewrite lookup_insert_ne.
Qed.

Lemma is_node_intro (d p : gmap string json) :
  d !! "parameters" = Some (JDict p) ->
  text_or_absent (p !! "jsCode") = true ->
  text_or_absent (p !! "jsonBody") = true ->
  is_node (JDict d) = true.
Proof. intros Hd Hc Hb. simpl. by rewrite Hd, Hc, Hb. Qed.

Section Script.

Variable GENERATE_STORAGE_PATH_CODE : string.
Variable GET_STORAGE_PATH_ID_CODE : string.

Local Abbreviation apply_fixes :=
  (Py.apply_fixes GENERATE_STORAGE_PATH_CODE GET_STORAGE_PATH_ID_CODE).

Lemma fix_pagination_unpatched (x y : json) :
  patched x = false -> fix_pagination x = Ok y -> y = x.
Proof. revert x y. unpatched_body "Check Storage Paths". Qed.

Lemma fix_generate_storage_path_unpatched (x y : json) :
  patched x = false ->
  fix_generate_storage_path GENERATE_STORAGE_PATH_CODE x = Ok y -> y = x.
Proof. revert x y. unpatched_body "Generate Storage Path". Qed.

Lemma fix_get_storage_path_id_unpatched (x y : json) :
  patched x = false ->
  fix_get_storage_path_id GET_STORAGE_PATH_ID_CODE x = Ok y -> y = x.
Proof. revert x y. unpatched_body "Get Storage Path ID". Qed.

Lemma fix_check_correspondent_unpatched (x y : json) :
  patched x = false -> fix_check_correspondent x = Ok y -> y = x.
Proof. revert x y. unpatched_body "Check Correspondent Exists". Qed.

Lemma fix_create_correspondent_unpatched (x y : json) :
  patched x = false -> fix_create_correspondent x = Ok y -> y = x.
Proof. revert x y. unpatched_body "Create Correspondent". Qed.

(** Whenever [apply_fixes] returns, the workflow it returns has as many
    nodes as the one it was given, the same value under every key other
    than 'nodes', and the same node at every place where the node is not
    one the script patches. *)
Lemma apply_fixes_frame_of_result (workflow workflow' : json) :
  apply_fixes workflow = Ok workflow' ->
  length (node_list workflow') = length (node_list workflow)
  /\ (forall key : string, key <> "nodes" ->
        top_level workflow' key = top_level workflow key)
  /\ (forall (i : nat) (node : json),
        node_list workflow !! i = Some node -> patched node = false ->
        node_list workflow' !! i = Some node).
Proof.
  unfold Py.apply_fixes.
  intros (n0 & H0 & (n1 & H1 & (n2 & H2 & (n3 & H3 & (n4 & H4 &
    (n5 & H5 & [= <-])%bind_Ok)%bind_Ok)%bind_Ok)%bind_Ok)%bind_Ok)%bind_Ok.
  apply for_each_frame in H1; [|apply fix_pagination_unpatched].
  apply for_each_frame in H2; [|apply fix_generate_storage_path_unpatched].
  apply for_each_frame in H3; [|apply fix_get_storage_path_id_unpatched].
  apply for_each_frame in H4; [|apply fix_check_correspondent_unpatched].
  apply for_each_frame in H5; [|apply fix_create_correspondent_unpatched].
  assert (Hf : frame n0 n5) by eauto using frame_trans.
  clear H1 H2 H3 H4 H5 n1 n2 n3 n4.
  destruct workflow as [| | | | |d]; try done. simpl in H0.
  injection H0 as <-. unfold node_list, top_level.
  destruct (d !! "nodes") as [v|] eqn:Ev; [|by rewrite Ev].
  rewrite lookup_insert_eq.
  split; [|split].
  - destruct v; simpl in Hf; try by rewrite Hf.
    by destruct Hf as (l' & -> & Hlen & _).
  - intros key Hkey. by rewrite lookup_insert_ne.
  - destruct v; simpl in Hf; try by rewrite Hf.
    by destruct Hf as (l' & -> & _ & Hl).
Qed.

(** On a node of a well-formed workflow every fix returns, and what it
    returns is again such a node. *)
Lemma fix_pagination_total (x : json) :
  is_node x = true ->
  exists y : json, fix_pagination x = Ok y /\ is_node y = true.
Proof.
  intros Hx. destruct (is_node_inv x Hx) as (d & p & -> & Hd & Hc & Hb).
  unfold fix_pagination. cbn [py_get mbind result_bind].
  destruct (eq_str _ _); [|by exists (JDict d)].
  destruct (set_parameter_total d p "sendQuery" (JBool true) Hd Hc Hb)
    as (d1 & p1 & -> & Hd1 & Hc1 & Hb1); [by intros [|]|].
  cbn [mbind result_bind].
  destruct (set_parameter_total d1 p1 "queryParameters" page_size_query Hd1 Hc1 Hb1)
    as (d2 & p2 & -> & Hd2 & Hc2 & Hb2); [by intros [|]|].
  exists (JDict d2). split; [done|]. by apply (is_node_intro d2 p2).
Qed.

Lemma fix_generate_storage_path_total (x : json) :
  is_node x = true ->
  exists y : json,
    fix_generate_storage_path GENERATE_STORAGE_PATH_CODE x = Ok y
    /\ is_node y = true.
Proof.
  intros Hx. destruct (is_node_inv x Hx) as (d & p & -> & Hd & Hc & Hb).
  unfold fix_generate_storage_path. cbn [py_get mbind result_bind].
  destruct (eq_str _ _); [|by exists (JDict d)].
  destruct (set_parameter_total d p "jsCode" (JStr GENERATE_STORAGE_PATH_CODE)
              Hd Hc Hb) as (d1 & p1 & -> & Hd1 & Hc1 & Hb1); [by eexists|].
  exists (JDict d1). split; [done|]. by apply (is_node_intro d1 p1).
Qed.

Lemma fix_get_storage_path_id_total (x : json) :
  is_node x = true ->
  exists y : json,
    fix_get_storage_path_id GET_STORAGE_PATH_ID_CODE x = Ok y
    /\ is_node y = true.
Proof.
  intros Hx. destruct (is_node_inv x Hx) as (d & p & -> & Hd & Hc & Hb).
  unfold fix_get_storage_path_id. cbn [py_get mbind result_bind].
  destruct (eq_str _ _); [|by exists (JDict d)].
  destruct (set_parameter_total d p "jsCode" (JStr GET_STORAGE_PATH_ID_CODE)
              Hd Hc Hb) as (d1 & p1 & -> & Hd1 & Hc1 & Hb1); [by eexists|].
  exists (JDict d1). split; [done|]. by apply (is_node_intro d1 p1).
Qed.

Lemma fix_check_correspondent_total (x : json) :
  is_node x = true ->
  exists y : json, fix_check_correspondent x = Ok y /\ is_node y = true.
Proof.
  intros Hx. destruct (is_node_inv x Hx) as (d & p & -> & _).
  unfold fix_check_correspondent. cbn [py_get mbind result_bind].
  destruct (eq_str _ _); [|by exists (JDict d)].
  apply replace_in_parameter_node; [by left|done].
Qed.

Lemma fix_create_correspondent_total (x : json) :
  is_node x = true ->
  exists y : json, fix_create_correspondent x = Ok y /\ is_node y = true.
Proof.
  intros Hx. destruct (is_node_inv x Hx) as (d & p & -> & _).
  unfold fix_create_correspondent. cbn [py_get mbind result_bind].
  destruct (eq_str _ _); [|by exists (JDict d)].
  apply replace_in_parameter_node; [by right|done].
Qed.

Lemma for_each_total (body : json -> result json) (l : list json) :
  (forall x : json, is_node x = true ->
     exists y : json, body x = Ok y /\ is_node y = true) ->
  Forall (fun x => is_node x = true) l ->
  exists l' : list json,
    for_each body (JList l) = Ok (JList l')
    /\ Forall (fun x => is_node x = true) l'.
Proof.
  intros Hbody Hl.
  destruct (traverse_total _ _ body l Hbody Hl) as (l' & Htr & Hl').
  exists l'. unfold for_each. cbn [py_iter mbind result_bind].
  by rewrite Htr.
Qed.

(** On a well-formed workflow [apply_fixes] raises no exception. *)
Lemma apply_fixes_total (workflow : json) :
  is_workflow workflow = true ->
  exists workflow' : json, apply_fixes workflow = Ok workflow'.
Proof.
  intros Hw. destruct workflow as [| | | | |d]; try done.
  assert (Hl : exists l : list json,
            py_get (JDict d) "nodes" (JList []) = Ok (JList l)
            /\ Forall (fun x => is_node x = true) l).
  { simpl in *. destruct (d !! "nodes") as [[| | | |l|]|]; try done.
    - exists l. split; [done|]. apply Forall_forall.
      intros x Hx%list_elem_of_In. by apply (proj1 (forallb_forall _ _) Hw).
    - by exists []. }
  destruct Hl as (l0 & H0 & Hl0). unfold Py.apply_fixes. rewrite H0.
  cbn [mbind result_bind].
  destruct (for_each_total _ l0 fix_pagination_total Hl0) as (l1 & -> & Hl1).
  cbn [mbind result_bind].
  destruct (for_each_total _ l1 fix_generate_storage_path_total Hl1) as (l2 & -> & Hl2).
  cbn [mbind result_bind].
  destruct (for_each_total _ l2 fix_get_storage_path_id_total Hl2) as (l3 & -> & Hl3).
  cbn [mbind result_bind].
  destruct (for_each_total _ l3 fix_check_correspondent_total Hl3) as (l4 & -> & Hl4).
  cbn [mbind result_bind].
  destruct (for_each_total _ l4 fix_create_correspondent_total Hl4) as (l5 & -> & Hl5).
  cbn [mbind result_bind]. by eexists.
Qed.

(** C10: whenever [apply_fixes] returns, the workflow it returns has the
    same number of nodes and the same connections as the one it was given,
    and every node that the script does not patch by name is the node it
    was; and [apply_fixes] does return on every workflow as the tool
    exports it.  On other workflow objects it can raise, see
    [apply_fixes_raises]. *)
Theorem apply_fixes_frame (workflow : json) :
  (is_workflow workflow = true ->
   exists workflow' : json, apply_fixes workflow = Ok workflow')
  /\ (forall workflow' : json,
        apply_fixes workflow = Ok workflow' ->
        length (node_list workflow') = length (node_list workflow)
        /\ top_level workflow' "connections" = top_level workflow "connections"
        /\ (forall (i : nat) (node : json),
              node_list workflow !! i = Some node -> patched node = false ->
              node_list workflow' !! i = Some node)).
Proof.
  split; [apply apply_fixes_total|].
  intros workflow' H.
  destruct (apply_fixes_frame_of_result _ _ H) as (Hlen & Htop & Hnodes).
  split; [done|]. split; [by apply Htop|done].
Qed.

End Script.

Lemma apply_fixes_frame_witness :
  exists workflow' : json,
    Py.apply_fixes "generate" "get" sample_workflow = Ok workflow'
    /\ length (node_list workflow') = length (node_list sample_workflow)
    /\ top_level workflow' "connections" = top_level sample_workflow "connections"
    /\ (forall (i : nat) (node : json),
          node_list sample_workflow !! i = Some node -> patched node = false ->
          node_list workflow' !! i = Some node).
Proof.
  destruct (apply_fixes_frame "generate" "get" sample_workflow) as [Hret Hframe].
  destruct Hret as [workflow' H]; [vm_compute; reflexivity|].
  exists workflow'. split; [exact H|]. apply Hframe. exact H.
Defined.

Example apply_fixes_sample_nodes :
  match Py.apply_fixes "generate" "get" sample_workflow with
  | Ok workflow' =>
      node_list workflow'
      = [ JDict (<["name" := JStr "Check Storage Paths"]>
                  {[ "parameters" :=
                       JDict (<["sendQuery" := JBool true]>
                               {[ "queryParameters" := page_size_query ]}) ]});
          JDict (<["name" := JStr "Upload Document"]>
                  {[ "parameters" := JDict {[ "jsCode" := JStr "return data.correspondent_name;" ]} ]});
          JDict (<["name" := JStr "Create Correspondent"]>
                  {[ "parameters" := JDict {[ "jsonBody" := JStr "name=$json.correspondent_canonical" ]} ]}) ]
  | Raise _ => False
  end.
Proof. vm_compute. reflexivity. Qed.

(** C10 fails as stated: on a workflow object with a node named 'Check
    Storage Paths' that has no 'parameters', [apply_fixes] raises
    [KeyError] and returns nothing. *)
Example apply_fixes_raises :
  Py.apply_fixes "generate" "get"
    (JDict {[ "nodes" := JList [JDict {[ "name" := JStr "Check Storage Paths" ]}] ]})
  = Raise KeyError.
Proof. vm_compute. reflexivity. Qed.


End PyFacts.

(** * Facts about the script, node by node *)
Module ScriptFacts.
Import Py Script PyFacts.

Lemma eq_str_true (v : json) (s : string) : eq_str v s = true -> v = JStr s.
Proof.
  destruct v as [| | |s'| |]; try done. simpl. by intros ->%String.eqb_eq.
Qed.

Lemma set_parameter_Ok (x y : json) (key : string) (value : json) :
  set_parameter x key value = Ok y ->
  exists (d p : gmap string json),
    x = JDict d /\ d !! "parameters" = Some (JDict p)
    /\ y = JDict (<["parameters" := JDict (<[key := value]> p)]> d).
Proof.
  unfold set_parameter. destruct x as [| | | | |d]; try done.
  cbn [py_getitem]. destruct (d !! "parameters") as [v|] eqn:E; [|done].
  cbn [mbind result_bind]. destruct v as [| | | | |p]; try done.
  cbn [py_setitem mbind result_bind]. intros [= <-]. by exists d, p.
Qed.

Lemma replace_in_parameter_Ok (x y : json) (key old new : string) :
  replace_in_parameter x key old new = Ok y ->
  y = x
  \/ exists (d p : gmap string json) (s : string),
       x = JDict d /\ d !! "parameters" = Some (JDict p)
       /\ p !! key = Some (JStr s)
       /\ is_substring "correspondent_name" s = true
       /\ y = JDict (<["parameters" :=
                        JDict (<[key := JStr (str_replace old new s)]> p)]> d).
Proof.
  unfold replace_in_parameter. destruct x as [| | | | |d]; try done.
  cbn [py_getitem]. destruct (d !! "parameters") as [v|] eqn:E; [|done].
  cbn [mbind result_bind]. destruct v as [| | | | |p]; try done.
  cbn [py_get mbind result_bind].
  destruct (p !! key) as [c|] eqn:Ec.
  - destruct c as [| | |s|l|m]; try done; cbn [py_contains mbind result_bind].
    + destruct (is_substring "correspondent_name" s) eqn:Es; [|intros [= <-]; by left].
      cbn [py_replace mbind result_bind].
      rewrite (set_parameter_node d p) by done. intros [= <-].
      right. by exists d, p, s.
    + destruct (existsb _ l); [done|]. intros [= <-]. by left.
    + destruct (bool_decide _); [done|]. intros [= <-]. by left.
  - cbn [py_contains mbind result_bind is_substring String.prefix orb].
    intros [= <-]. by left.
Qed.

(** ** Facts about [in] and [replace] on texts *)

Lemma append_cons (x : ascii) (a b : string) :
  String x a +:+ b = String x (a +:+ b).
Proof. reflexivity. Qed.

Lemma append_nil_l (a : string) : "" +:+ a = a.
Proof. reflexivity. Qed.

Lemma append_assoc (a b c : string) : (a +:+ b) +:+ c = a +:+ b +:+ c.
Proof. induction a as [|x a IH]; [done|]. rewrite !append_cons. by f_equal. Qed.

Lemma length_append (a b : string) :
  String.length (a +:+ b) = (String.length a + String.length b)%nat.
Proof.
  induction a as [|x a IH]; [done|]. rewrite append_cons. simpl. by rewrite IH.
Qed.

Lemma prefix_append (p s : string) :
  String.prefix p s = true <-> exists c : string, s = p +:+ c.
Proof.
  revert s. induction p as [|x p IH]; intros s.
  - split; [by exists s|by destruct s].
  - destruct s as [|y s]; simpl.
    + split; [done|by intros [c ?]].
    + destruct (ascii_dec x y) as [->|Hne].
      * rewrite IH. split; intros [c Hc]; exists c.
        -- by rewrite append_cons, Hc.
        -- rewrite append_cons in Hc. by injection Hc.
      * split; [done|]. intros [c Hc]. rewrite append_cons in Hc.
        injection Hc as ? _. done.
Qed.

Lemma is_substring_append (x s : string) :
  is_substring x s = true <-> exists a c : string, s = a +:+ x +:+ c.
Proof.
  induction s as [|y s IH].
  - cbn [is_substring]. rewrite orb_false_r, prefix_append. split.
    + intros [c Hc]. by exists "", c.
    + intros (a & c & H). destruct a; [by exists c|done].
  - cbn [is_substring]. rewrite orb_true_iff, IH, prefix_append. split.
    + intros [[c Hc]|(a & c & ->)]; [by exists "", c|by exists (String y a), c].
    + intros ([|z a] & c & H); [left; by exists c|].
      right. rewrite append_cons in H. injection H as -> ->. by exists a, c.
Qed.

Lemma is_substring_trans (x y s : string) :
  is_substring x y = true -> is_substring y s = true -> is_substring x s = true.
Proof.
  intros (a & c & ->)%is_substring_append (a' & c' & ->)%is_substring_append.
  apply is_substring_append. exists (a' +:+ a), (c +:+ c').
  by rewrite !append_assoc.
Qed.

Lemma str_replace_go_skip (old new a b : string) :
  str_replace_go old new (String.length a) (a +:+ b) = str_replace_go old new 0 b.
Proof. induction a as [|x a IH]; [done|]. simpl. apply IH. Qed.

(** One step of [replace] at an occurrence and away from one. *)
Lemma str_replace_here (x : ascii) (old' new rest : string) :
  str_replace (String x old') new (String x old' +:+ rest)
  = new +:+ str_replace (String x old') new rest.
Proof.
  unfold str_replace. rewrite append_cons. cbn [str_replace_go].
  assert (H : String.prefix (String x old') (String x (old' +:+ rest)) = true).
  { apply prefix_append. by exists rest. }
  rewrite H. by rewrite str_replace_go_skip.
Qed.

Lemma str_replace_next (old new : string) (y : ascii) (s : string) :
  String.prefix old (String y s) = false ->
  str_replace old new (String y s) = String y (str_replace old new s).
Proof. intros H. unfold str_replace. cbn [str_replace_go]. by rewrite H. Qed.

(** [replace] leaves the start of a text alone as far as the first
    character of [old] does not occur. *)
Lemma prefix_str_replace (a : ascii) (old' new' p s : string) :
  is_substring (String a "") p = false ->
  String.prefix p (str_replace (String a old') (String a new') s)
  = String.prefix p s.
Proof.
  revert s. induction p as [|b p IH]; intros s Hp.
  - by destruct s, (str_replace _ _ _).
  - cbn [is_substring] in Hp. apply orb_false_iff in Hp as [Hb Hp].
    assert (Hab : a <> b).
    { intros ->. simpl in Hb. destruct (ascii_dec b b); [|done]. by destruct p. }
    destruct s as [|c s]; [done|].
    destruct (String.prefix (String a old') (String c s)) eqn:E.
    + apply prefix_append in E as [rest E]. rewrite E, str_replace_here.
      rewrite !append_cons. simpl. by destruct (ascii_dec b a).
    + rewrite str_replace_next by done. simpl.
      destruct (ascii_dec b c); [|done]. by apply IH.
Qed.

(** When [old] and [new] begin with a character that [old] does not
    repeat, and [old] occurs in no text for beginning with [new], then
    [old] does not occur in what [replace] returns. *)
Lemma str_replace_go_no_old (a : ascii) (old' new' : string) (skip : nat)
    (s : string) :
  is_substring (String a "") old' = false ->
  (forall rest : string,
     is_substring (String a old') (String a new' +:+ rest)
     = is_substring (String a old') rest) ->
  is_substring (String a old')
    (str_replace_go (String a old') (String a new') skip s) = false.
Proof.
  intros Ha Hnew. revert skip.
  induction s as [|c s IH]; intros skip.
  - by destruct skip.
  - destruct skip as [|k]; [|apply IH].
    cbn [str_replace_go].
    destruct (String.prefix (String a old') (String c s)) eqn:E.
    + by rewrite Hnew.
    + cbn [is_substring]. rewrite (IH 0%nat), orb_false_r.
      simpl. simpl in E. destruct (ascii_dec a c); [|done].
      pose proof (prefix_str_replace a old' new' old' s Ha) as H.
      unfold str_replace in H. by rewrite H.
Qed.

(** A text in which [old] does not occur is returned as it is. *)
Lemma str_replace_absent (old new s : string) :
  is_substring old s = false -> str_replace old new s = s.
Proof.
  induction s as [|y s IH]; cbn [is_substring].
  - rewrite orb_false_r. intros H. destruct old; [done|]. done.
  - intros [H1 H2]%orb_false_iff. rewrite str_replace_next by done.
    by rewrite IH.
Qed.

(** When [new] is at least as long as [old], replacing never shortens,
    and it lengthens when [new] is longer and [old] occurs. *)
Lemma str_replace_length (x : ascii) (old' new : string) (n : nat) (s : string) :
  (String.length s <= n)%nat ->
  (String.length (String x old') <= String.length new)%nat ->
  (String.length s <= String.length (str_replace (String x old') new s))%nat
  /\ (is_substring (String x old') s = true ->
      (String.length (String x old') < String.length new)%nat ->
      (String.length s < String.length (str_replace (String x old') new s))%nat).
Proof.
  revert s. induction n as [|n IH]; intros s Hn Hlen.
  - destruct s; [|simpl in Hn; lia]. split; [done|]. by intros ?.
  - destruct s as [|y s]; [split; [done|by intros ?]|].
    destruct (String.prefix (String x old') (String y s)) eqn:E.
    + apply prefix_append in E as [rest E]. rewrite E, str_replace_here.
      rewrite !length_append.
      destruct (IH rest) as [IH1 _]; [|done|].
      { apply (f_equal String.length) in E. rewrite length_append in E.
        simpl in E, Hn. lia. }
      split; [lia|]. intros _ ?. lia.
    + rewrite str_replace_next by done. cbn [String.length is_substring].
      rewrite E. cbn [orb].
      destruct (IH s) as [IH1 IH2]; [simpl in Hn; lia|done|].
      split; [lia|]. intros H1 H2. specialize (IH2 H1 H2). lia.
Qed.

(** Where [old] occurs in the text, [new] occurs in the result. *)
Lemma str_replace_present (x : ascii) (old' new s : string) :
  is_substring (String x old') s = true ->
  is_substring new (str_replace (String x old') new s) = true.
Proof.
  induction s as [|y s IH]; [done|].
  destruct (String.prefix (String x old') (String y s)) eqn:E.
  - intros _. apply prefix_append in E as [rest ->].
    rewrite str_replace_here. apply is_substring_append.
    by exists "", (str_replace (String x old') new rest).
  - cbn [is_substring]. rewrite E. cbn [orb]. intros H%IH.
    rewrite str_replace_next by done.
    apply is_substring_append in H as (a & c & ->).
    apply is_substring_append. by exists (String y a), c.
Qed.

(** ** The five loops on one node *)

Lemma set_parameter_name (x y : json) (key : string) (value : json) :
  set_parameter x key value = Ok y ->
  py_get y "name" JNull = py_get x "name" JNull.
Proof.
  intros (d & p & -> & _ & ->)%set_parameter_Ok. simpl.
  by rewrite lookup_insert_ne.
Qed.

Lemma replace_in_parameter_name (x y : json) (key old new : string) :
  replace_in_parameter x key old new = Ok y ->
  py_get y "name" JNull = py_get x "name" JNull.
Proof.
  intros [->|(d & p & s & -> & _ & _ & _ & ->)]%replace_in_parameter_Ok; [done|].
  simpl. by rewrite lookup_insert_ne.
Qed.

(** ** Loops over the nodes *)

Lemma traverse_Forall2 {A B : Type} (f : A -> result B) (l : list A) (l' : list B) :
  traverse f l = Ok l' <-> Forall2 (fun x y => f x = Ok y) l l'.
Proof.
  revert l'. induction l as [|x l IH]; intros l'; simpl.
  - split; [intros [= <-]; constructor|by inversion 1].
  - split.
    + intros (y & Hy & (l'' & Hl & [= <-])%bind_Ok)%bind_Ok.
      constructor; [done|by apply IH].
    + inversion 1 as [|? y ? l'' Hy Hl]; subst.
      apply IH in Hl. by rewrite Hy, Hl.
Qed.

Lemma Forall2_chain {A : Type} (R S : A -> A -> Prop) (l l'' : list A) :
  Forall2 (fun x z => exists y, R x y /\ S y z) l l''
  <-> exists l', Forall2 R l l' /\ Forall2 S l' l''.
Proof.
  split.
  - induction 1 as [|x z l l'' (y & HR & HS) _ (l' & H1 & H2)].
    + exists []. by split.
    + exists (y :: l'). split; by constructor.
  - intros (l' & H1 & H2). revert l'' H2.
    induction H1 as [|x y l l' HR _ IH]; intros l'' H2.
    + inversion H2. constructor.
    + inversion H2 as [|? z ? l3 HS Hl]; subst.
      constructor; [by exists y|by apply IH].
Qed.

Lemma for_each_list (body : json -> result json) (l : list json) (nodes' : json) :
  for_each body (JList l) = Ok nodes'
  <-> exists l', nodes' = JList l' /\ Forall2 (fun x y => body x = Ok y) l l'.
Proof.
  unfold for_each. cbn [py_iter mbind result_bind]. split.
  - intros (l' & Hl & [= <-])%bind_Ok. exists l'. split; [done|].
    by apply traverse_Forall2.
  - intros (l' & -> & Hl%traverse_Forall2). by rewrite Hl.
Qed.

(** A loop over something that is not a list only returns when there is
    nothing to walk: the items are strings, on which every body raises. *)
Lemma for_each_not_list (body : json -> result json) (nodes nodes' : json) :
  (forall s : string, body (JStr s) = Raise AttributeError) ->
  (forall l : list json, nodes <> JList l) ->
  for_each body nodes = Ok nodes' <-> py_iter nodes = Ok [] /\ nodes' = nodes.
Proof.
  intros Hbody Hnot. unfold for_each.
  destruct nodes as [| | |s|l|m]; try (split; [done|by intros [? _]]).
  - cbn [py_iter mbind result_bind].
    destruct (list_ascii_of_string s) as [|c cs]; simpl.
    + split; [by intros [= <-]|by intros [_ ->]].
    + rewrite Hbody. split; [done|by intros [? _]].
  - by destruct (Hnot l).
  - cbn [py_iter mbind result_bind].
    destruct (map_to_list m) as [|[k v] kvs]; simpl.
    + split; [by intros [= <-]|by intros [_ ->]].
    + rewrite Hbody. split; [done|by intros [? _]].
Qed.

Section Fixes.

Variable GENERATE_STORAGE_PATH_CODE : string.
Variable GET_STORAGE_PATH_ID_CODE : string.

Local Abbreviation fix2 := (fix_generate_storage_path GENERATE_STORAGE_PATH_CODE).
Local Abbreviation fix3 := (fix_get_storage_path_id GET_STORAGE_PATH_ID_CODE).
Local Abbreviation patch := (patch_node GENERATE_STORAGE_PATH_CODE GET_STORAGE_PATH_ID_CODE).
Local Abbreviation fixes := (five_fixes GENERATE_STORAGE_PATH_CODE GET_STORAGE_PATH_ID_CODE).

Lemma fix_pagination_other (y name : json) :
  py_get y "name" JNull = Ok name ->
  eq_str name "Check Storage Paths" = false -> fix_pagination y = Ok y.
Proof. intros H E. unfold fix_pagination. rewrite H. simpl. by rewrite E. Qed.

Lemma fix_generate_storage_path_other (y name : json) :
  py_get y "name" JNull = Ok name ->
  eq_str name "Generate Storage Path" = false -> fix2 y = Ok y.
Proof.
  intros H E. unfold fix_generate_storage_path. rewrite H. simpl. by rewrite E.
Qed.

Lemma fix_get_storage_path_id_other (y name : json) :
  py_get y "name" JNull = Ok name ->
  eq_str name "Get Storage Path ID" = false -> fix3 y = Ok y.
Proof.
  intros H E. unfold fix_get_storage_path_id. rewrite H. simpl. by rewrite E.
Qed.

Lemma fix_check_correspondent_other (y name : json) :
  py_get y "name" JNull = Ok name ->
  eq_str name "Check Correspondent Exists" = false ->
  fix_check_correspondent y = Ok y.
Proof.
  intros H E. unfold fix_check_correspondent. rewrite H. simpl. by rewrite E.
Qed.

Lemma fix_create_correspondent_other (y name : json) :
  py_get y "name" JNull = Ok name ->
  eq_str name "Create Correspondent" = false ->
  fix_create_correspondent y = Ok y.
Proof.
  intros H E. unfold fix_create_correspondent. rewrite H. simpl. by rewrite E.
Qed.

(** The loops that do not fire on a node leave it to the others. *)
Ltac skip_fixes H :=
  repeat
    (first
       [ rewrite (fix_pagination_other _ _ H) by (done || by subst)
       | rewrite (fix_generate_storage_path_other _ _ H) by (done || by subst)
       | rewrite (fix_get_storage_path_id_other _ _ H) by (done || by subst)
       | rewrite (fix_check_correspondent_other _ _ H) by (done || by subst)
       | rewrite (fix_create_correspondent_other _ _ H) by (done || by subst) ];
     cbn [mbind result_bind]).

(** The five loops treat a node as one loop would that picks the fix by
    the node's name; they raise the same exception where it raises. *)
Lemma five_fixes_is_patch_node (node : json) : fixes node = patch node.
Proof.
  destruct node as [| | | | |d]; try done.
  unfold five_fixes, patch_node.
  assert (H : py_get (JDict d) "name" JNull
              = Ok (match d !! "name" with Some x => x | None => JNull end)) by done.
  rewrite H. cbn [mbind result_bind].
  set (name := match d !! "name" with Some x => x | None => JNull end) in *.
  destruct (eq_str name "Check Storage Paths") eqn:E1.
  { apply eq_str_true in E1. unfold fix_pagination at 1. rewrite H, E1.
    cbn [mbind result_bind eq_str String.eqb Ascii.eqb Bool.eqb andb].
    destruct (set_parameter (JDict d) "sendQuery" (JBool true)) as [y1|e] eqn:S1; [|done].
    cbn [mbind result_bind].
    destruct (set_parameter y1 "queryParameters" page_size_query) as [y2|e] eqn:S2; [|done].
    cbn [mbind result_bind].
    assert (H2 : py_get y2 "name" JNull = Ok (JStr "Check Storage Paths")).
    { by rewrite (set_parameter_name _ _ _ _ S2), (set_parameter_name _ _ _ _ S1), H, E1. }
    by skip_fixes H2. }
  skip_fixes H.
  destruct (eq_str name "Generate Storage Path") eqn:E2.
  { apply eq_str_true in E2. unfold fix_generate_storage_path at 1. rewrite H, E2.
    cbn [mbind result_bind eq_str String.eqb Ascii.eqb Bool.eqb andb].
    destruct (set_parameter _ _ _) as [y|e] eqn:S1; [|done]. cbn [mbind result_bind].
    assert (H2 : py_get y "name" JNull = Ok (JStr "Generate Storage Path")).
    { by rewrite (set_parameter_name _ _ _ _ S1), H, E2. }
    by skip_fixes H2. }
  skip_fixes H.
  destruct (eq_str name "Get Storage Path ID") eqn:E3.
  { apply eq_str_true in E3. unfold fix_get_storage_path_id at 1. rewrite H, E3.
    cbn [mbind result_bind eq_str String.eqb Ascii.eqb Bool.eqb andb].
    destruct (set_parameter _ _ _) as [y|e] eqn:S1; [|done]. cbn [mbind result_bind].
    assert (H2 : py_get y "name" JNull = Ok (JStr "Get Storage Path ID")).
    { by rewrite (set_parameter_name _ _ _ _ S1), H, E3. }
    by skip_fixes H2. }
  skip_fixes H.
  destruct (eq_str name "Check Correspondent Exists") eqn:E4.
  { apply eq_str_true in E4. unfold fix_check_correspondent at 1. rewrite H, E4.
    cbn [mbind result_bind eq_str String.eqb Ascii.eqb Bool.eqb andb].
    destruct (replace_in_parameter _ _ _ _) as [y|e] eqn:S1; [|done].
    cbn [mbind result_bind].
    assert (H2 : py_get y "name" JNull = Ok (JStr "Check Correspondent Exists")).
    { by rewrite (replace_in_parameter_name _ _ _ _ _ S1), H, E4. }
    by skip_fixes H2. }
  skip_fixes H.
  unfold fix_create_correspondent. rewrite H. cbn [mbind result_bind].
  by destruct (eq_str name "Create Correspondent").
Qed.

Lemma five_fixes_Ok (x z : json) :
  fixes x = Ok z
  <-> exists y1, fix_pagination x = Ok y1 /\
      exists y2, fix2 y1 = Ok y2 /\
      exists y3, fix3 y2 = Ok y3 /\
      exists y4, fix_check_correspondent y3 = Ok y4 /\
      fix_create_correspondent y4 = Ok z.
Proof.
  unfold five_fixes. split.
  - intros (y1 & H1 & (y2 & H2 & (y3 & H3 & (y4 & H4 & H5)%bind_Ok)%bind_Ok)%bind_Ok)%bind_Ok.
    eauto 10.
  - intros (y1 & -> & y2 & H2 & y3 & H3 & y4 & H4 & H5). simpl.
    rewrite H2. simpl. rewrite H3. simpl. by rewrite H4.
Qed.

Lemma patch_node_string (s : string) : patch (JStr s) = Raise AttributeError.
Proof. done. Qed.

(** The five loops in a row, on whatever sits under 'nodes'. *)
Lemma five_loops (nodes nodes' : json) :
  (exists n1, for_each fix_pagination nodes = Ok n1 /\
   exists n2, for_each fix2 n1 = Ok n2 /\
   exists n3, for_each fix3 n2 = Ok n3 /\
   exists n4, for_each fix_check_correspondent n3 = Ok n4 /\
   for_each fix_create_correspondent n4 = Ok nodes')
  <-> for_each patch nodes = Ok nodes'.
Proof.
  assert (Hcase : (exists l, nodes = JList l) \/ (forall l, nodes <> JList l))
    by (destruct nodes; eauto; by right).
  destruct Hcase as [[l ->]|Hnot'].
  - rewrite for_each_list. split.
    + intros (n1 & (l1 & -> & H1)%for_each_list & n2 & (l2 & -> & H2)%for_each_list
              & n3 & (l3 & -> & H3)%for_each_list & n4 & (l4 & -> & H4)%for_each_list
              & (l5 & -> & H5)%for_each_list).
      exists l5. split; [done|].
      eapply Forall2_impl; [|intros x z Hxz; rewrite <- five_fixes_is_patch_node;
                              apply five_fixes_Ok; exact Hxz].
      apply Forall2_chain. exists l1. split; [done|].
      apply Forall2_chain. exists l2. split; [done|].
      apply Forall2_chain. exists l3. split; [done|].
      apply Forall2_chain. exists l4. by split.
    + intros (l5 & -> & H).
      assert (H' : Forall2 (fun x z =>
                 exists y1, fix_pagination x = Ok y1 /\
                 exists y2, fix2 y1 = Ok y2 /\
                 exists y3, fix3 y2 = Ok y3 /\
                 exists y4, fix_check_correspondent y3 = Ok y4 /\
                 fix_create_correspondent y4 = Ok z) l l5).
      { eapply Forall2_impl; [exact H|]. intros x z Hxz.
        apply five_fixes_Ok. by rewrite five_fixes_is_patch_node. }
      apply Forall2_chain in H' as (l1 & H1 & H').
      apply Forall2_chain in H' as (l2 & H2 & H').
      apply Forall2_chain in H' as (l3 & H3 & H').
      apply Forall2_chain in H' as (l4 & H4 & H5).
      exists (JList l1). split; [apply for_each_list; eauto|].
      exists (JList l2). split; [apply for_each_list; eauto|].
      exists (JList l3). split; [apply for_each_list; eauto|].
      exists (JList l4). split; [apply for_each_list; eauto|].
      apply for_each_list; eauto.
  - rewrite (for_each_not_list patch) by done.
    split.
    + intros (n1 & [Hi ->]%for_each_not_list & n2 & [_ ->]%for_each_not_list
              & n3 & [_ ->]%for_each_not_list & n4 & [_ ->]%for_each_not_list
              & [_ ->]%for_each_not_list); done.
    + intros [Hi ->].
      repeat (exists nodes; split; [by apply for_each_not_list|]).
      by apply for_each_not_list.
Qed.

Lemma single_pass_iff (workflow workflow' : json) :
  Py.apply_fixes GENERATE_STORAGE_PATH_CODE GET_STORAGE_PATH_ID_CODE workflow
    = Ok workflow'
  <-> single_pass GENERATE_STORAGE_PATH_CODE GET_STORAGE_PATH_ID_CODE workflow
    = Ok workflow'.
Proof.
  unfold Py.apply_fixes, single_pass.
  destruct (py_get workflow "nodes" (JList [])) as [nodes|e]; [|done].
  cbn [mbind result_bind]. split.
  - intros (n1 & H1 & (n2 & H2 & (n3 & H3 & (n4 & H4 &
      (n5 & H5 & [= <-])%bind_Ok)%bind_Ok)%bind_Ok)%bind_Ok)%bind_Ok.
    assert (H : for_each patch nodes = Ok n5) by (apply five_loops; eauto 10).
    by rewrite H.
  - intros (n5 & (n1 & H1 & n2 & H2 & n3 & H3 & n4 & H4 & H5)%five_loops
              & [= <-])%bind_Ok.
    rewrite H1. simpl. rewrite H2. simpl. rewrite H3. simpl.
    rewrite H4. simpl. by rewrite H5.
Qed.

(** The nodes of the workflow [apply_fixes] returns are the nodes it was
    given, each patched by its name. *)
Lemma nodes_patched (workflow workflow' : json) :
  Py.apply_fixes GENERATE_STORAGE_PATH_CODE GET_STORAGE_PATH_ID_CODE workflow
    = Ok workflow' ->
  Forall2 (fun x y => patch x = Ok y) (node_list workflow) (node_list workflow').
Proof.
  intros H%single_pass_iff. unfold single_pass in H.
  destruct workflow as [| | | | |d]; try done. cbn [py_get mbind result_bind] in H.
  apply bind_Ok in H as (n' & Hn & [= <-]). unfold node_list.
  destruct (d !! "nodes") as [v|] eqn:Ev.
  - rewrite lookup_insert_eq.
    assert (Hcase : (exists l, v = JList l) \/ (forall l, v <> JList l))
      by (destruct v; eauto; by right).
    destruct Hcase as [[l ->]|Hnot].
    + by apply for_each_list in Hn as (l' & -> & Hl).
    + apply for_each_not_list in Hn as [_ ->]; [|done..].
      destruct v; try constructor. by destruct (Hnot l).
  - rewrite Ev. apply for_each_list in Hn as (l' & -> & Hl).
    inversion Hl. constructor.
Qed.

(** What a patch leaves of a node. *)
Lemma patch_node_Ok (x y : json) :
  patch x = Ok y ->
  y = x
  \/ exists (d p p' : gmap string json),
       x = JDict d /\ d !! "parameters" = Some (JDict p)
       /\ y = JDict (<["parameters" := JDict p']> d)
       /\ forall k : string, k ∉ WRITTEN -> p' !! k = p !! k.
Proof.
  unfold patch_node. destruct x as [| | | | |d]; try done.
  cbn [py_get mbind result_bind].
  assert (Hw : forall k key : string, key ∈ WRITTEN -> k ∉ WRITTEN -> key <> k)
    by (intros k key Hin Hnot ->; done).
  assert (Hset : forall (x y : json) (key : string) (value : json),
            key ∈ WRITTEN -> set_parameter x key value = Ok y ->
            exists (d p : gmap string json),
              x = JDict d /\ d !! "parameters" = Some (JDict p)
              /\ y = JDict (<["parameters" := JDict (<[key := value]> p)]> d)
              /\ forall k : string, k ∉ WRITTEN -> <[key := value]> p !! k = p !! k).
  { intros x0 y0 key value Hin (d0 & p0 & -> & Hd & ->)%set_parameter_Ok.
    exists d0, p0. repeat split; [done|]. intros k Hk.
    apply lookup_insert_ne. by apply Hw. }
  assert (Hrep : forall (y : json) (key old new : string),
            key ∈ WRITTEN -> replace_in_parameter (JDict d) key old new = Ok y ->
            y = JDict d
            \/ exists (d0 p p' : gmap string json),
                 JDict d = JDict d0 /\ d0 !! "parameters" = Some (JDict p)
                 /\ y = JDict (<["parameters" := JDict p']> d0)
                 /\ forall k : string, k ∉ WRITTEN -> p' !! k = p !! k).
  { intros y0 key old new Hin
      [->|(d0 & p0 & s & [= <-] & Hd & _ & _ & ->)]%replace_in_parameter_Ok;
      [by left|].
    right. eexists d, p0, _. repeat split; [done|]. intros k Hk.
    apply lookup_insert_ne. by apply Hw. }
  destruct (eq_str _ "Check Storage Paths").
  { intros (y1 & H1 & H2)%bind_Ok.
    apply Hset in H1 as (d1 & p1 & [= <-] & Hd1 & -> & Hk1); [|set_solver].
    apply Hset in H2 as (d2 & p2 & [= <-] & Hd2 & -> & Hk2); [|set_solver].
    rewrite lookup_insert_eq in Hd2. injection Hd2 as <-.
    right. eexists d, p1, _. split; [done|]. split; [done|].
    split; [by rewrite insert_insert_eq|].
    intros k Hk. by rewrite Hk2, Hk1. }
  destruct (eq_str _ "Generate Storage Path").
  { intros H1. apply Hset in H1 as (d1 & p1 & [= <-] & Hd1 & -> & Hk1); [|set_solver].
    right. by eexists d, p1, _. }
  destruct (eq_str _ "Get Storage Path ID").
  { intros H1. apply Hset in H1 as (d1 & p1 & [= <-] & Hd1 & -> & Hk1); [|set_solver].
    right. by eexists d, p1, _. }
  destruct (eq_str _ "Check Correspondent Exists"); [apply Hrep; set_solver|].
  destruct (eq_str _ "Create Correspondent"); [apply Hrep; set_solver|].
  intros [= <-]. by left.
Qed.

Lemma patch_node_keys (x y : json) :
  patch x = Ok y ->
  (forall k : string, k <> "parameters" -> node_key y k = node_key x k)
  /\ (forall k : string, k ∉ WRITTEN -> parameter y k = parameter x k).
Proof.
  intros [->|(d & p & p' & -> & Hd & -> & Hk)]%patch_node_Ok; [done|].
  split.
  - intros k Hne. simpl. by rewrite lookup_insert_ne.
  - intros k Hnot. unfold parameter. simpl.
    rewrite lookup_insert_eq, Hd. by apply Hk.
Qed.

Lemma patch_node_named (x y : json) (name : string) :
  patch x = Ok y -> named y name = named x name.
Proof.
  intros [Hk _]%patch_node_keys. unfold named. by rewrite Hk.
Qed.

Lemma named_inv (x : json) (name : string) :
  named x name = true ->
  exists d : gmap string json, x = JDict d /\ d !! "name" = Some (JStr name).
Proof.
  unfold named, node_key. destruct x as [| | | | |d]; try done.
  destruct (d !! "name") as [v|] eqn:E; [|done].
  intros ->%eq_str_true. by exists d.
Qed.

Lemma set_parameter_again (d p : gmap string json) (key : string) (value : json) :
  d !! "parameters" = Some (JDict p) -> p !! key = Some value ->
  set_parameter (JDict d) key value = Ok (JDict d).
Proof.
  intros Hd Hp. rewrite (set_parameter_node d p) by done.
  by rewrite (insert_id p), (insert_id d).
Qed.

(** The patch of a node with one of the first three names. *)
Lemma patch_check_storage_paths (x y : json) :
  named x "Check Storage Paths" = true -> patch x = Ok y ->
  exists (d p : gmap string json),
    x = JDict d /\ d !! "parameters" = Some (JDict p)
    /\ y = JDict (<["parameters" :=
                     JDict (<["queryParameters" := page_size_query]>
                             (<["sendQuery" := JBool true]> p))]> d).
Proof.
  intros (d & -> & Hn)%named_inv. unfold patch_node.
  cbn [py_get mbind result_bind]. rewrite Hn.
  change (eq_str (JStr "Check Storage Paths") "Check Storage Paths") with true.
  cbn iota.
  intros (y1 & (d1 & p1 & [= <-] & Hd & ->)%set_parameter_Ok
             & (d2 & p2 & [= <-] & Hd2 & ->)%set_parameter_Ok)%bind_Ok.
  rewrite lookup_insert_eq in Hd2. injection Hd2 as <-.
  exists d, p1. by rewrite insert_insert_eq.
Qed.

Lemma patch_generate_storage_path (x y : json) :
  named x "Generate Storage Path" = true -> patch x = Ok y ->
  exists (d p : gmap string json),
    x = JDict d /\ d !! "parameters" = Some (JDict p)
    /\ y = JDict (<["parameters" :=
                     JDict (<["jsCode" := JStr GENERATE_STORAGE_PATH_CODE]> p)]> d).
Proof.
  intros (d & -> & Hn)%named_inv. unfold patch_node.
  cbn [py_get mbind result_bind]. rewrite Hn.
  change (eq_str (JStr "Generate Storage Path") "Check Storage Paths") with false.
  change (eq_str (JStr "Generate Storage Path") "Generate Storage Path") with true.
  cbn iota.
  intros (d1 & p1 & [= <-] & Hd & ->)%set_parameter_Ok. by exists d, p1.
Qed.

Lemma patch_get_storage_path_id (x y : json) :
  named x "Get Storage Path ID" = true -> patch x = Ok y ->
  exists (d p : gmap string json),
    x = JDict d /\ d !! "parameters" = Some (JDict p)
    /\ y = JDict (<["parameters" :=
                     JDict (<["jsCode" := JStr GET_STORAGE_PATH_ID_CODE]> p)]> d).
Proof.
  intros (d & -> & Hn)%named_inv. unfold patch_node.
  cbn [py_get mbind result_bind]. rewrite Hn.
  change (eq_str (JStr "Get Storage Path ID") "Check Storage Paths") with false.
  change (eq_str (JStr "Get Storage Path ID") "Generate Storage Path") with false.
  change (eq_str (JStr "Get Storage Path ID") "Get Storage Path ID") with true.
  cbn iota.
  intros (d1 & p1 & [= <-] & Hd & ->)%set_parameter_Ok. by exists d, p1.
Qed.

(** The patch of the two correspondent nodes. *)
Lemma patch_check_correspondent (x : json) :
  named x "Check Correspondent Exists" = true ->
  patch x = replace_in_parameter x "jsCode" "data.correspondent_name"
              "data.correspondent_canonical || data.correspondent_name".
Proof.
  intros (d & -> & Hn)%named_inv. unfold patch_node.
  cbn [py_get mbind result_bind]. by rewrite Hn.
Qed.

Lemma patch_create_correspondent (x : json) :
  named x "Create Correspondent" = true ->
  patch x = replace_in_parameter x "jsonBody" "$json.correspondent_name"
              "$json.correspondent_canonical".
Proof.
  intros (d & -> & Hn)%named_inv. unfold patch_node.
  cbn [py_get mbind result_bind]. by rewrite Hn.
Qed.

Lemma replace_in_parameter_lacks (x y : json) (key old new : string) :
  lacks (parameter x key) old = true ->
  replace_in_parameter x key old new = Ok y -> y = x.
Proof.
  intros Hl [->|(d & p & s & -> & Hd & Hp & _ & ->)]%replace_in_parameter_Ok;
    [done|].
  unfold lacks, parameter, node_key in Hl. rewrite Hd, Hp in Hl.
  apply negb_true_iff in Hl. rewrite (str_replace_absent _ _ _ Hl).
  by rewrite (insert_id p), (insert_id d).
Qed.

Lemma patch_untouched (x y : json) :
  untouched x = true -> patch x = Ok y -> y = x.
Proof.
  unfold untouched.
  intros [[Hp%negb_true_iff|[Hn Hl]%andb_true_iff]%orb_true_iff
         |[Hn Hl]%andb_true_iff]%orb_true_iff.
  - rewrite <- five_fixes_is_patch_node.
    intros (y1 & H1 & y2 & H2 & y3 & H3 & y4 & H4 & H5)%five_fixes_Ok.
    apply fix_pagination_unpatched in H1 as ->; [|done].
    apply fix_generate_storage_path_unpatched in H2 as ->; [|done].
    apply fix_get_storage_path_id_unpatched in H3 as ->; [|done].
    apply fix_check_correspondent_unpatched in H4 as ->; [|done].
    by apply fix_create_correspondent_unpatched in H5 as ->.
  - rewrite patch_check_correspondent by done.
    by apply replace_in_parameter_lacks.
  - rewrite patch_create_correspondent by done.
    by apply replace_in_parameter_lacks.
Qed.

Lemma parameter_inv (x : json) (key : string) (v : json) :
  parameter x key = Some v ->
  exists (d p : gmap string json),
    x = JDict d /\ d !! "parameters" = Some (JDict p) /\ p !! key = Some v.
Proof.
  unfold parameter, node_key. destruct x as [| | | | |d]; try done.
  destruct (d !! "parameters") as [[| | | | |p]|] eqn:E; try done.
  intros H. by exists d, p.
Qed.

Lemma replace_in_parameter_found (d p : gmap string json) (key s old new : string) :
  d !! "parameters" = Some (JDict p) -> p !! key = Some (JStr s) ->
  is_substring "correspondent_name" s = true ->
  replace_in_parameter (JDict d) key old new
  = Ok (JDict (<["parameters" :=
                  JDict (<[key := JStr (str_replace old new s)]> p)]> d)).
Proof.
  intros Hd Hp Hs. unfold replace_in_parameter. cbn [py_getitem].
  rewrite Hd. cbn [mbind result_bind py_get]. rewrite Hp.
  cbn [py_contains mbind result_bind]. rewrite Hs.
  cbn [py_replace mbind result_bind]. by apply set_parameter_node.
Qed.

(** The text that fix 5 puts in is no occurrence of the text it
    replaces. *)
Lemma create_correspondent_new (rest : string) :
  is_substring "$json.correspondent_name"
    ("$json.correspondent_canonical" +:+ rest)
  = is_substring "$json.correspondent_name" rest.
Proof. repeat rewrite append_cons. rewrite append_nil_l. reflexivity. Qed.

Lemma replace_in_parameter_twice (x y : json) (key : string) (a : ascii)
    (old' new' : string) :
  is_substring (String a "") old' = false ->
  (forall rest : string,
     is_substring (String a old') (String a new' +:+ rest)
     = is_substring (String a old') rest) ->
  replace_in_parameter x key (String a old') (String a new') = Ok y ->
  replace_in_parameter y key (String a old') (String a new') = Ok y.
Proof.
  intros Ha Hnew Hxy. pose proof Hxy as Hxy'.
  apply replace_in_parameter_Ok in Hxy
    as [->|(d & p & s & -> & Hd & Hp & Hs & ->)]; [done|].
  clear Hxy'.
  set (r := str_replace (String a old') (String a new') s).
  assert (Hr : str_replace (String a old') (String a new') r = r).
  { apply str_replace_absent. by apply str_replace_go_no_old. }
  destruct (is_substring "correspondent_name" r) eqn:Ec.
  - rewrite (replace_in_parameter_found _ (<[key := JStr r]> p) key r);
      [|by rewrite lookup_insert_eq|by rewrite lookup_insert_eq|done].
    by rewrite Hr, !insert_insert_eq.
  - unfold replace_in_parameter. cbn [py_getitem].
    rewrite lookup_insert_eq. cbn [mbind result_bind py_get].
    rewrite lookup_insert_eq. cbn [py_contains mbind result_bind].
    by rewrite Ec.
Qed.

Lemma patch_node_twice (x y : json) :
  named x "Check Correspondent Exists" = false ->
  patch x = Ok y -> patch y = Ok y.
Proof.
  intros H4 Hxy.
  destruct (named x "Create Correspondent") eqn:H5.
  { pose proof (patch_node_named x y "Create Correspondent" Hxy) as Hny.
    rewrite H5 in Hny.
    rewrite (patch_create_correspondent y Hny).
    rewrite (patch_create_correspondent x H5) in Hxy.
    apply (replace_in_parameter_twice x y "jsonBody" "$"
             "json.correspondent_name" "json.correspondent_canonical");
      [reflexivity|apply create_correspondent_new|done]. }
  destruct (named x "Check Storage Paths") eqn:E1.
  { destruct (patch_check_storage_paths x y E1 Hxy) as (d & p & -> & Hd & ->).
    apply named_inv in E1 as (d' & [= <-] & Hn).
    unfold patch_node. cbn [py_get mbind result_bind].
    rewrite lookup_insert_ne, Hn by done.
    change (eq_str (JStr "Check Storage Paths") "Check Storage Paths") with true.
    cbn iota.
    rewrite (set_parameter_again _ (<["queryParameters" := page_size_query]>
                                     (<["sendQuery" := JBool true]> p)));
      [|by rewrite lookup_insert_eq|by rewrite lookup_insert_ne, lookup_insert_eq].
    cbn [mbind result_bind].
    by rewrite (set_parameter_again _ (<["queryParameters" := page_size_query]>
                                        (<["sendQuery" := JBool true]> p)));
      [|by rewrite lookup_insert_eq|by rewrite lookup_insert_eq]. }
  destruct (named x "Generate Storage Path") eqn:E2.
  { destruct (patch_generate_storage_path x y E2 Hxy) as (d & p & -> & Hd & ->).
    apply named_inv in E2 as (d' & [= <-] & Hn).
    unfold patch_node. cbn [py_get mbind result_bind].
    rewrite lookup_insert_ne, Hn by done.
    change (eq_str (JStr "Generate Storage Path") "Check Storage Paths") with false.
    change (eq_str (JStr "Generate Storage Path") "Generate Storage Path") with true.
    cbn iota.
    by rewrite (set_parameter_again _ (<["jsCode" := JStr GENERATE_STORAGE_PATH_CODE]> p));
      [|by rewrite lookup_insert_eq|by rewrite lookup_insert_eq]. }
  destruct (named x "Get Storage Path ID") eqn:E3.
  { destruct (patch_get_storage_path_id x y E3 Hxy) as (d & p & -> & Hd & ->).
    apply named_inv in E3 as (d' & [= <-] & Hn).
    unfold patch_node. cbn [py_get mbind result_bind].
    rewrite lookup_insert_ne, Hn by done.
    change (eq_str (JStr "Get Storage Path ID") "Check Storage Paths") with false.
    change (eq_str (JStr "Get Storage Path ID") "Generate Storage Path") with false.
    change (eq_str (JStr "Get Storage Path ID") "Get Storage Path ID") with true.
    cbn iota.
    by rewrite (set_parameter_again _ (<["jsCode" := JStr GET_STORAGE_PATH_ID_CODE]> p));
      [|by rewrite lookup_insert_eq|by rewrite lookup_insert_eq]. }
  assert (Hu : untouched x = true).
  { unfold untouched. apply orb_true_iff. left. apply orb_true_iff. left.
    apply negb_true_iff. unfold patched, named, node_key, Py.node_name in *.
    destruct x as [| | | | |d]; try done.
    destruct (d !! "name") as [v|]; [|done]. simpl.
    by rewrite E1, E2, E3, H4, H5. }
  by rewrite (patch_untouched x y Hu Hxy) in Hxy |- *.
Qed.

(** A workflow that a run returned, all of whose nodes a patch leaves as
    they are, is what the next run returns. *)
Lemma single_pass_fixed (workflow workflow' : json) :
  single_pass GENERATE_STORAGE_PATH_CODE GET_STORAGE_PATH_ID_CODE workflow
    = Ok workflow' ->
  Forall (fun y => patch y = Ok y) (node_list workflow') ->
  single_pass GENERATE_STORAGE_PATH_CODE GET_STORAGE_PATH_ID_CODE workflow'
    = Ok workflow'.
Proof.
  unfold single_pass. destruct workflow as [| | | | |d]; try done.
  cbn [py_get mbind result_bind].
  intros (n' & Hn & [= <-])%bind_Ok.
  destruct (d !! "nodes") as [v|] eqn:Ev.
  - unfold node_list. cbn [py_get mbind result_bind].
    rewrite !lookup_insert_eq. intros Hall.
    assert (H : for_each patch n' = Ok n').
    { assert (Hcase : (exists l, v = JList l) \/ (forall l, v <> JList l))
        by (destruct v; eauto; by right).
      destruct Hcase as [[l ->]|Hnot].
      - apply for_each_list in Hn as (l' & -> & _). apply for_each_list.
        exists l'. split; [done|]. clear -Hall.
        induction Hall; by constructor.
      - apply for_each_not_list in Hn as [Hi ->]; [|done..].
        by apply for_each_not_list. }
    rewrite H. cbn [mbind result_bind]. by rewrite insert_insert_eq.
  - intros _. cbn [py_get mbind result_bind]. rewrite Ev.
    change (for_each patch (JList [])) with (Ok (JList [])).
    done.
Qed.

Local Abbreviation apply_fixes :=
  (Py.apply_fixes GENERATE_STORAGE_PATH_CODE GET_STORAGE_PATH_ID_CODE).

(** X1: [apply_fixes] returns what a single loop over the nodes returns
    that patches each node by its name, and it returns exactly when that
    loop does. *)
Theorem apply_fixes_is_single_pass (workflow workflow' : json) :
  apply_fixes workflow = Ok workflow'
  <-> single_pass GENERATE_STORAGE_PATH_CODE GET_STORAGE_PATH_ID_CODE workflow
      = Ok workflow'.
Proof. apply single_pass_iff. Qed.

(** X2: in the workflow returned, every node keeps all its keys other than
    'parameters' (its name among them) and, under 'parameters', all keys
    other than the four the script writes. *)
Theorem apply_fixes_keeps_keys (workflow workflow' : json) (i : nat) (x : json) :
  apply_fixes workflow = Ok workflow' ->
  node_list workflow !! i = Some x ->
  exists y : json,
    node_list workflow' !! i = Some y
    /\ (forall k : string, k <> "parameters" -> node_key y k = node_key x k)
    /\ (forall k : string, k ∉ WRITTEN -> parameter y k = parameter x k).
Proof.
  intros H%nodes_patched Hx.
  destruct (Forall2_lookup_l _ _ _ _ _ H Hx) as (y & Hy & Hp).
  exists y. split; [done|]. by apply patch_node_keys.
Qed.

(** X3: in the workflow returned, a node named 'Check Storage Paths' sends
    the query parameter page_size = 1000, a node named 'Generate Storage
    Path' holds the new code, and so does a node named 'Get Storage Path
    ID'. *)
Theorem apply_fixes_writes (workflow workflow' : json) (i : nat) (y : json) :
  apply_fixes workflow = Ok workflow' ->
  node_list workflow' !! i = Some y ->
  (named y "Check Storage Paths" = true ->
     parameter y "sendQuery" = Some (JBool true)
     /\ parameter y "queryParameters" = Some page_size_query)
  /\ (named y "Generate Storage Path" = true ->
        parameter y "jsCode" = Some (JStr GENERATE_STORAGE_PATH_CODE))
  /\ (named y "Get Storage Path ID" = true ->
        parameter y "jsCode" = Some (JStr GET_STORAGE_PATH_ID_CODE)).
Proof.
  intros H%nodes_patched Hy.
  destruct (Forall2_lookup_r _ _ _ _ _ H Hy) as (x & Hx & Hp).
  rewrite !(patch_node_named x y _ Hp). split; [|split].
  - intros Hn.
    destruct (patch_check_storage_paths x y Hn Hp) as (d & p & -> & Hd & ->).
    unfold parameter. simpl. rewrite !lookup_insert_eq.
    by rewrite lookup_insert_ne, lookup_insert_eq.
  - intros Hn.
    destruct (patch_generate_storage_path x y Hn Hp) as (d & p & -> & Hd & ->).
    unfold parameter. simpl. by rewrite !lookup_insert_eq.
  - intros Hn.
    destruct (patch_get_storage_path_id x y Hn Hp) as (d & p & -> & Hd & ->).
    unfold parameter. simpl. by rewrite !lookup_insert_eq.
Qed.

(** X4: a node that is none of the five, or one of the two correspondent
    nodes whose text does not hold what the script replaces, comes back as
    it was; a workflow of such nodes comes back as it was. *)
Theorem apply_fixes_untouched (workflow workflow' : json) :
  apply_fixes workflow = Ok workflow' ->
  (forall (i : nat) (x : json),
     node_list workflow !! i = Some x -> untouched x = true ->
     node_list workflow' !! i = Some x)
  /\ (Forall (fun x => untouched x = true) (node_list workflow) ->
      workflow' = workflow).
Proof.
  intros H. pose proof (nodes_patched _ _ H) as Hn. split.
  - intros i x Hx Hu.
    destruct (Forall2_lookup_l _ _ _ _ _ Hn Hx) as (y & Hy & Hp).
    by rewrite (patch_untouched x y Hu Hp) in Hy.
  - intros Hall.
    assert (Heq : node_list workflow' = node_list workflow).
    { clear H. induction Hn as [|x y l l' Hp _ IH]; [done|].
      apply Forall_cons in Hall as [Hu Hall].
      by rewrite (patch_untouched x y Hu Hp), IH. }
    apply single_pass_iff in H. unfold single_pass in H.
    destruct workflow as [| | | | |d]; try done.
    cbn [py_get mbind result_bind] in H.
    apply bind_Ok in H as (n' & Hn' & [= <-]).
    unfold node_list in Heq.
    destruct (d !! "nodes") as [v|] eqn:Ev; [|done].
    rewrite lookup_insert_eq in Heq. f_equal.
    assert (Hcase : (exists l, v = JList l) \/ (forall l, v <> JList l))
      by (destruct v; eauto; by right).
    destruct Hcase as [[l ->]|Hnot].
    + apply for_each_list in Hn' as (l' & -> & _). subst l'. by apply insert_id.
    + apply for_each_not_list in Hn' as [_ ->]; [|done..]. by apply insert_id.
Qed.

(** X5: [apply_fixes] does not return when a node is not an object, or is
    one of the five and has no object under 'parameters'. *)
Theorem apply_fixes_never_returns (workflow : json) (i : nat) (x : json) :
  node_list workflow !! i = Some x ->
  (forall d, x <> JDict d)
  \/ (patched x = true
      /\ forall p, node_key x "parameters" <> Some (JDict p)) ->
  forall workflow' : json, apply_fixes workflow <> Ok workflow'.
Proof.
  intros Hx Hbad workflow' H%nodes_patched.
  destruct (Forall2_lookup_l _ _ _ _ _ H Hx) as (y & _ & Hp).
  destruct Hbad as [Hnd|[Hpa Hpar]].
  - destruct x; try done. by destruct (Hnd d).
  - unfold patch_node in Hp.
    destruct x as [| | | | |d]; try done.
    cbn [py_get mbind result_bind] in Hp.
    unfold patched, Py.node_name in Hpa. simpl in Hpar.
    destruct (d !! "name") as [v|]; [|done].
    assert (Hset : forall key value z,
              set_parameter (JDict d) key value <> Ok z).
    { intros key value z (d0 & p0 & [= <-] & Hd & _)%set_parameter_Ok.
      by destruct (Hpar p0). }
    assert (Hrep : forall key old new z,
              replace_in_parameter (JDict d) key old new <> Ok z).
    { intros key old new z. unfold replace_in_parameter. cbn [py_getitem].
      destruct (d !! "parameters") as [[| | | | |p0]|]; try done.
      by destruct (Hpar p0). }
    cbn [existsb PATCHED] in Hpa.
    destruct (eq_str v "Check Storage Paths").
    { apply bind_Ok in Hp as (z & Hz & _). by apply Hset in Hz. }
    destruct (eq_str v "Generate Storage Path"); [by apply Hset in Hp|].
    destruct (eq_str v "Get Storage Path ID"); [by apply Hset in Hp|].
    destruct (eq_str v "Check Correspondent Exists"); [by apply Hrep in Hp|].
    destruct (eq_str v "Create Correspondent"); [by apply Hrep in Hp|].
    done.
Qed.

(** X6: on a workflow without a node named 'Check Correspondent
    Exists', a second run returns what the first returned: fix 4 apart,
    every fix is applied once and for all. *)
Theorem apply_fixes_twice (workflow workflow' : json) :
  Forall (fun x => named x "Check Correspondent Exists" = false)
         (node_list workflow) ->
  apply_fixes workflow = Ok workflow' ->
  apply_fixes workflow' = Ok workflow'.
Proof.
  intros Hall H. pose proof (nodes_patched _ _ H) as Hn.
  apply single_pass_iff. apply single_pass_iff in H.
  apply (single_pass_fixed _ _ H).
  clear H. induction Hn as [|x y l l' Hp _ IH]; [constructor|].
  apply Forall_cons in Hall as [H4 Hall].
  constructor; [by apply (patch_node_twice x)|by apply IH].
Qed.

(** X7: for a node named 'Check Correspondent Exists' whose code holds
    data.correspondent_name, the code returned is longer and holds
    data.correspondent_name again, so every further run rewrites it
    again. *)
Theorem apply_fixes_compounds (workflow workflow' : json) (i : nat) (x : json)
    (s : string) :
  apply_fixes workflow = Ok workflow' ->
  node_list workflow !! i = Some x ->
  named x "Check Correspondent Exists" = true ->
  parameter x "jsCode" = Some (JStr s) ->
  is_substring "data.correspondent_name" s = true ->
  exists (y : json) (s' : string),
    node_list workflow' !! i = Some y
    /\ named y "Check Correspondent Exists" = true
    /\ parameter y "jsCode" = Some (JStr s')
    /\ is_substring "data.correspondent_name" s' = true
    /\ (String.length s < String.length s')%nat.
Proof.
  intros H%nodes_patched Hx Hn Hs Hin.
  destruct (Forall2_lookup_l _ _ _ _ _ H Hx) as (y & Hy & Hp).
  exists y, (str_replace "data.correspondent_name"
               "data.correspondent_canonical || data.correspondent_name" s).
  pose proof (patch_node_named x y "Check Correspondent Exists" Hp) as Hny.
  rewrite patch_check_correspondent in Hp by done.
  destruct (parameter_inv x "jsCode" (JStr s) Hs) as (d & p & -> & Hd & Hj).
  rewrite (replace_in_parameter_found d p "jsCode" s) in Hp;
    [|done|done|by apply (is_substring_trans _ "data.correspondent_name")].
  injection Hp as <-.
  split; [done|]. split; [by rewrite Hny|]. split.
  { unfold parameter. simpl. by rewrite !lookup_insert_eq. }
  split.
  - apply (is_substring_trans _
             "data.correspondent_canonical || data.correspondent_name"); [done|].
    by apply str_replace_present.
  - destruct (str_replace_length "d" "ata.correspondent_name"
                "data.correspondent_canonical || data.correspondent_name"
                (String.length s) s) as [_ Hl]; [lia|vm_compute; lia|].
    apply Hl; [done|vm_compute; lia].
Qed.

End Fixes.

(** ** [main] *)
Section Main.

Variable GENERATE_STORAGE_PATH_CODE : string.
Variable GET_STORAGE_PATH_ID_CODE : string.
Variable repo_root : path.
Variable json_loads : string -> option json.
Variable json_dumps : json -> string.

Local Abbreviation apply_fixes :=
  (Py.apply_fixes GENERATE_STORAGE_PATH_CODE GET_STORAGE_PATH_ID_CODE).
Local Abbreviation main :=
  (Script.main GENERATE_STORAGE_PATH_CODE GET_STORAGE_PATH_ID_CODE repo_root
     json_loads json_dumps).
Local Abbreviation current := (current_workflow repo_root).
Local Abbreviation backup := (backup_workflow repo_root).
Local Abbreviation output := (output_workflow repo_root).

(** The three files are three different files. *)
Lemma paths_distinct :
  current <> backup /\ current <> output /\ backup <> output.
Proof.
  unfold current_workflow, backup_workflow, output_workflow.
  repeat split; intros H%app_inv_head; discriminate H.
Qed.

(** The four ways through [main]. *)
Lemma main_cases (store : gmap path string) :
  (store !! current = None /\ main store = (Exit 1, store))
  \/ exists text : string,
       store !! current = Some text
       /\ ((json_loads text = None
            /\ main store = (JSONDecodeError, <[backup := text]> store))
           \/ exists workflow : json,
                json_loads text = Some workflow
                /\ ((exists e : exn,
                       (fixed ← apply_fixes workflow; update_version fixed)
                       = Raise e
                       /\ main store = (Raised e, <[backup := text]> store))
                    \/ (exists final : json,
                          (fixed ← apply_fixes workflow; update_version fixed)
                          = Ok final
                          /\ main store
                             = (Finished,
                                <[current := json_dumps final]>
                                  (<[output := json_dumps final]>
                                     (<[backup := text]> store)))))).
Proof.
  destruct paths_distinct as (Hcb & _).
  unfold Script.main.
  destruct (store !! current) as [text|] eqn:Ec; [|by left].
  right. exists text. split; [done|].
  rewrite lookup_insert_ne by done. rewrite Ec.
  destruct (json_loads text) as [workflow|]; [|by left].
  right. exists workflow. split; [done|].
  destruct (fixed ← apply_fixes workflow; update_version fixed) as [final|e].
  - right. by exists final.
  - left. by exists e.
Qed.

(** What [apply_fixes] returns is an object. *)
Lemma apply_fixes_dict (workflow fixed : json) :
  apply_fixes workflow = Ok fixed -> exists d : gmap string json, fixed = JDict d.
Proof.
  intros H%single_pass_iff. unfold single_pass in H.
  destruct workflow as [| | | | |d]; try done.
  cbn [py_get mbind result_bind] in H.
  apply bind_Ok in H as (n' & _ & [= <-]).
  destruct (d !! "nodes"); by eexists.
Qed.

(** What [update_version] returns, and when. *)
Lemma update_version_Ok (workflow final : json) :
  update_version workflow = Ok final <->
  exists (d m : gmap string json),
    workflow = JDict d
    /\ (d !! "meta" = None /\ m = ∅ \/ d !! "meta" = Some (JDict m))
    /\ final
       = JDict (<["meta" := JDict (<["version" := JStr "14.2"]> m)]>
                  (<["name" := JStr "Paperless AI Processing v14.2"]> d)).
Proof.
  unfold update_version. destruct workflow as [| | | | |d]; try by (split; [|intros (? & ? & ? & _)]).
  cbn [py_setitem py_get mbind result_bind py_getitem].
  rewrite lookup_insert_eq. cbn [mbind result_bind].
  rewrite lookup_insert_ne by done.
  split.
  - intros H. exists d.
    destruct (d !! "meta") as [[| | | | |m]|]; try done.
    + exists m. cbn [py_setitem mbind result_bind] in H.
      rewrite insert_insert_eq in H. injection H as <-. eauto.
    + exists ∅. cbn [py_setitem mbind result_bind] in H.
      rewrite insert_insert_eq in H. injection H as <-. eauto.
  - intros (d0 & m & [= <-] & [[-> ->]| ->] & ->);
      cbn [py_setitem mbind result_bind]; by rewrite insert_insert_eq.
Qed.

Lemma update_version_raises (workflow : json) (v : json) :
  top_level workflow "meta" = Some v ->
  (forall m, v <> JDict m) ->
  update_version workflow = Raise TypeError.
Proof.
  intros Hv Hm. destruct workflow as [| | | | |d]; try done. simpl in Hv.
  unfold update_version.
  cbn [py_setitem py_get mbind result_bind py_getitem].
  rewrite lookup_insert_eq. cbn [mbind result_bind].
  rewrite lookup_insert_ne by done. rewrite Hv.
  destruct v; try done. by destruct (Hm d0).
Qed.

(** The current workflow file, when there is one, is copied to the
    backup, however the run ends. *)
Lemma main_backup_of (store : gmap path string) (text : string) :
  store !! current = Some text ->
  (main store).2 !! backup = Some text.
Proof.
  intros Hc. destruct paths_distinct as (Hcb & Hco & Hbo).
  destruct (main_cases store) as [[Hn _]|(text' & Ht & H)]; [congruence|].
  assert (text' = text) as -> by congruence.
  destruct H as [[_ ->]|(w & _ & [(e & _ & ->)|(final & _ & ->)])]; simpl.
  - by rewrite lookup_insert_eq.
  - by rewrite lookup_insert_eq.
  - rewrite lookup_insert_ne by done. rewrite lookup_insert_ne by done.
    by rewrite lookup_insert_eq.
Qed.


(** X10: a run that does not finish writes no file but the backup: the
    current workflow file and the output file are as they were. *)
Theorem main_unfinished (store : gmap path string) :
  (main store).1 <> Finished ->
  forall p : path, p <> backup -> (main store).2 !! p = store !! p.
Proof.
  intros Hf p Hp.
  destruct (main_cases store) as [[_ ->]|(text & Ht & H)]; [done|].
  destruct H as [[_ ->]|(w & _ & [(e & _ & ->)|(final & _ & H)])]; simpl.
  - by rewrite lookup_insert_ne.
  - by rewrite lookup_insert_ne.
  - by rewrite H in Hf.
Qed.

(** What a finished run has written. *)
Lemma main_finished_inv (store : gmap path string) :
  (main store).1 = Finished ->
  exists (text : string) (workflow fixed final : json),
    store !! current = Some text
    /\ json_loads text = Some workflow
    /\ apply_fixes workflow = Ok fixed
    /\ update_version fixed = Ok final
    /\ (main store).2
       = <[current := json_dumps final]>
           (<[output := json_dumps final]> (<[backup := text]> store)).
Proof.
  intros Hf.
  destruct (main_cases store) as [[_ H]|(text & Ht & H)]; [by rewrite H in Hf|].
  destruct H as [[_ H]|(w & Hw & [(e & _ & H)|(final & Hfin & H)])];
    try by rewrite H in Hf.
  apply bind_Ok in Hfin as (fixed & Hfix & Hup).
  exists text, w, fixed, final. by rewrite H.
Qed.

(** X11: a run that finishes has written one and the same text to the
    current workflow file and to the output file: the workflow read from
    the current file with the name 'Paperless AI Processing v14.2', with
    meta.version '14.2' and the other entries of meta as they were, with
    every other key but 'nodes' as it was, the same number of nodes, and
    every node the script does not patch as it was.  No file other than
    these two and the backup is written. *)
Theorem main_finished (store : gmap path string) :
  (main store).1 = Finished ->
  exists (text : string) (workflow final : json) (meta : gmap string json),
    store !! current = Some text
    /\ json_loads text = Some workflow
    /\ (main store).2 !! current = Some (json_dumps final)
    /\ (main store).2 !! output = Some (json_dumps final)
    /\ (forall p : path, p <> current -> p <> output -> p <> backup ->
          (main store).2 !! p = store !! p)
    /\ top_level final "name" = Some (JStr "Paperless AI Processing v14.2")
    /\ top_level final "meta" = Some (JDict meta)
    /\ meta !! "version" = Some (JStr "14.2")
    /\ (forall k : string, k <> "version" ->
          meta !! k = match top_level workflow "meta" with
                      | Some (JDict m) => m !! k
                      | _ => None
                      end)
    /\ (forall k : string, k <> "name" -> k <> "meta" -> k <> "nodes" ->
          top_level final k = top_level workflow k)
    /\ length (node_list final) = length (node_list workflow)
    /\ (forall (i : nat) (node : json),
          node_list workflow !! i = Some node -> patched node = false ->
          node_list final !! i = Some node).
Proof.
  intros (text & workflow & fixed & final & Ht & Hw & Hfix & Hup & ->)%main_finished_inv.
  destruct paths_distinct as (Hcb & Hco & Hbo).
  destruct (PyFacts.apply_fixes_frame_of_result _ _ _ _ Hfix) as (Hlen & Htop & Hnodes).
  apply update_version_Ok in Hup as (d & m & -> & Hm & ->).
  exists text, workflow, (JDict (<["meta" := JDict (<["version" := JStr "14.2"]> m)]>
                  (<["name" := JStr "Paperless AI Processing v14.2"]> d))),
    (<["version" := JStr "14.2"]> m).
  split; [done|]. split; [done|].
  split; [by rewrite lookup_insert_eq|].
  split; [by rewrite lookup_insert_ne, lookup_insert_eq|].
  split; [intros p H1 H2 H3; by rewrite !lookup_insert_ne|].
  cbn [top_level].
  split; [by rewrite lookup_insert_ne, lookup_insert_eq|].
  split; [by rewrite lookup_insert_eq|].
  split; [by rewrite lookup_insert_eq|].
  split.
  { intros k Hk. rewrite lookup_insert_ne by done.
    rewrite <- (Htop "meta") by done. simpl.
    destruct Hm as [[-> ->]| ->]; [|done]. apply lookup_empty. }
  split.
  { intros k H1 H2 H3. rewrite !lookup_insert_ne by done. by apply (Htop k). }
  assert (Hn : node_list (JDict (<["meta" := JDict (<["version" := JStr "14.2"]> m)]>
                  (<["name" := JStr "Paperless AI Processing v14.2"]> d)))
               = node_list (JDict d)).
  { unfold node_list. by rewrite !lookup_insert_ne. }
  rewrite Hn. done.
Qed.

(** X12: on a workflow as the tool exports it, whose 'meta' is absent or
    an object, the run finishes. *)
Theorem main_finishes (store : gmap path string) (text : string) (workflow : json) :
  store !! current = Some text ->
  json_loads text = Some workflow ->
  is_workflow workflow = true ->
  lacks_or_object (top_level workflow "meta") = true ->
  (main store).1 = Finished.
Proof.
  intros Ht Hw Hwf Hmeta.
  destruct (PyFacts.apply_fixes_total GENERATE_STORAGE_PATH_CODE
              GET_STORAGE_PATH_ID_CODE workflow Hwf) as [fixed Hfix].
  destruct (PyFacts.apply_fixes_frame_of_result _ _ _ _ Hfix) as (_ & Htop & _).
  assert (Hup : exists final, update_version fixed = Ok final).
  { rewrite <- (Htop "meta") in Hmeta by done.
    destruct (apply_fixes_dict _ _ Hfix) as [d ->]. simpl in Hmeta.
    destruct (d !! "meta") as [[| | | | |m]|] eqn:Em; try done.
    - eexists. apply update_version_Ok. exists d, m. eauto.
    - eexists. apply update_version_Ok. exists d, ∅. eauto. }
  destruct Hup as [final Hup].
  destruct (main_cases store) as [[Hn _]|(text' & Ht' & H)]; [congruence|].
  assert (text' = text) as -> by congruence.
  destruct H as [[Hl _]|(w & Hw' & H)]; [congruence|].
  assert (w = workflow) as -> by congruence.
  rewrite Hfix in H. cbn [mbind result_bind] in H. rewrite Hup in H.
  destruct H as [(e & He & _)|(final' & _ & ->)]; done.
Qed.

(** X13: on a workflow as the tool exports it whose 'meta' is not an
    object (null, say), the run stops with TypeError after the backup
    is written and before any other file is. *)
Theorem main_meta_raises (store : gmap path string) (text : string)
    (workflow v : json) :
  store !! current = Some text ->
  json_loads text = Some workflow ->
  is_workflow workflow = true ->
  top_level workflow "meta" = Some v ->
  (forall m : gmap string json, v <> JDict m) ->
  main store = (Raised TypeError, <[backup := text]> store).
Proof.
  intros Ht Hw Hwf Hv Hm.
  destruct (PyFacts.apply_fixes_total GENERATE_STORAGE_PATH_CODE
              GET_STORAGE_PATH_ID_CODE workflow Hwf) as [fixed Hfix].
  destruct (PyFacts.apply_fixes_frame_of_result _ _ _ _ Hfix) as (_ & Htop & _).
  rewrite <- (Htop "meta") in Hv by done.
  pose proof (update_version_raises fixed v Hv Hm) as Hup.
  destruct (main_cases store) as [[Hn _]|(text' & Ht' & H)]; [congruence|].
  assert (text' = text) as -> by congruence.
  destruct H as [[Hl _]|(w & Hw' & H)]; [congruence|].
  assert (w = workflow) as -> by congruence.
  rewrite Hfix in H. cbn [mbind result_bind] in H. rewrite Hup in H.
  destruct H as [(e & [= <-] & ->)|(final' & ? & _)]; done.
Qed.

(** X14: a second run after a run that finished puts into the backup
    file the text that the first run wrote to the current workflow
    file. *)
Theorem main_rerun_backup (store : gmap path string) :
  (main store).1 = Finished ->
  exists written : string,
    (main store).2 !! current = Some written
    /\ (main (main store).2).2 !! backup = Some written.
Proof.
  intros (text & workflow & fixed & final & Ht & Hw & Hfix & Hup & E)%main_finished_inv.
  exists (json_dumps final).
  assert (Hc : (main store).2 !! current = Some (json_dumps final)).
  { rewrite E. by rewrite lookup_insert_eq. }
  split; [done|]. by apply main_backup_of.
Qed.

End Main.

(** ** The facts above on the sample workflows *)

Lemma apply_fixes_is_single_pass_witness :
  single_pass "generate" "get" sample_workflow = Ok sample_fixed.
Proof.
  apply (apply_fixes_is_single_pass "generate" "get" sample_workflow sample_fixed).
  vm_compute. reflexivity.
Defined.

Lemma apply_fixes_keeps_keys_witness :
  exists y : json,
    node_list sample_fixed !! 2%nat = Some y
    /\ (forall k : string, k <> "parameters" ->
          node_key y k = node_key (node_at sample_workflow 2) k)
    /\ (forall k : string, k ∉ WRITTEN ->
          parameter y k = parameter (node_at sample_workflow 2) k).
Proof.
  apply (apply_fixes_keeps_keys "generate" "get" sample_workflow sample_fixed).
  - vm_compute. reflexivity.
  - vm_compute. reflexivity.
Defined.

Lemma apply_fixes_writes_witness :
  parameter (node_at sample_fixed 0) "sendQuery" = Some (JBool true)
  /\ parameter (node_at sample_fixed 0) "queryParameters" = Some page_size_query.
Proof.
  destruct (apply_fixes_writes "generate" "get" sample_workflow sample_fixed 0
              (node_at sample_fixed 0)) as [H _].
  - vm_compute. reflexivity.
  - vm_compute. reflexivity.
  - apply H. vm_compute. reflexivity.
Defined.

Lemma apply_fixes_untouched_witness :
  node_list sample_fixed !! 1%nat = Some (node_at sample_workflow 1).
Proof.
  destruct (apply_fixes_untouched "generate" "get" sample_workflow sample_fixed)
    as [H _].
  - vm_compute. reflexivity.
  - apply H.
    + vm_compute. reflexivity.
    + vm_compute. reflexivity.
Defined.

Lemma apply_fixes_never_returns_witness :
  Py.apply_fixes "generate" "get" sample_broken <> Ok sample_broken.
Proof.
  apply (apply_fixes_never_returns "generate" "get" sample_broken 0
           (node_at sample_broken 0)).
  - vm_compute. reflexivity.
  - right. split.
    + vm_compute. reflexivity.
    + intros p. vm_compute. discriminate.
Defined.

Lemma apply_fixes_twice_witness :
  Py.apply_fixes "generate" "get" sample_fixed = Ok sample_fixed.
Proof.
  apply (apply_fixes_twice "generate" "get" sample_workflow).
  - change (node_list sample_workflow)
      with [node_at sample_workflow 0; node_at sample_workflow 1;
            node_at sample_workflow 2].
    repeat (constructor; [vm_compute; reflexivity|]). constructor.
  - vm_compute. reflexivity.
Defined.

Lemma apply_fixes_compounds_witness :
  exists (y : json) (s' : string),
    node_list sample_check_fixed !! 0%nat = Some y
    /\ named y "Check Correspondent Exists" = true
    /\ parameter y "jsCode" = Some (JStr s')
    /\ is_substring "data.correspondent_name" s' = true
    /\ (String.length "const q = data.correspondent_name;" < String.length s')%nat.
Proof.
  apply (apply_fixes_compounds "generate" "get" sample_check sample_check_fixed 0
           (node_at sample_check 0)).
  - vm_compute. reflexivity.
  - vm_compute. reflexivity.
  - vm_compute. reflexivity.
  - vm_compute. reflexivity.
  - vm_compute. reflexivity.
Defined.


Lemma main_unfinished_witness :
  (sample_main (sample_store "{")).2 !! current_workflow sample_root
  = sample_store "{" !! current_workflow sample_root.
Proof.
  apply (main_unfinished "generate" "get" sample_root sample_loads sample_dumps).
  - vm_compute. discriminate.
  - vm_compute. discriminate.
Defined.

Lemma main_finished_witness :
  exists (text : string) (workflow final : json) (meta : gmap string json),
    sample_store "v14.1" !! current_workflow sample_root = Some text
    /\ sample_loads text = Some workflow
    /\ (sample_main (sample_store "v14.1")).2 !! current_workflow sample_root
       = Some (sample_dumps final)
    /\ (sample_main (sample_store "v14.1")).2 !! output_workflow sample_root
       = Some (sample_dumps final)
    /\ (forall p : path,
          p <> current_workflow sample_root ->
          p <> output_workflow sample_root ->
          p <> backup_workflow sample_root ->
          (sample_main (sample_store "v14.1")).2 !! p = sample_store "v14.1" !! p)
    /\ top_level final "name" = Some (JStr "Paperless AI Processing v14.2")
    /\ top_level final "meta" = Some (JDict meta)
    /\ meta !! "version" = Some (JStr "14.2")
    /\ (forall k : string, k <> "version" ->
          meta !! k = match top_level workflow "meta" with
                      | Some (JDict m) => m !! k
                      | _ => None
                      end)
    /\ (forall k : string, k <> "name" -> k <> "meta" -> k <> "nodes" ->
          top_level final k = top_level workflow k)
    /\ length (node_list final) = length (node_list workflow)
    /\ (forall (i : nat) (node : json),
          node_list workflow !! i = Some node -> patched node = false ->
          node_list final !! i = Some node).
Proof.
  apply (main_finished "generate" "get" sample_root sample_loads sample_dumps).
  vm_compute. reflexivity.
Defined.

Lemma main_finishes_witness :
  (sample_main (sample_store "v14.1")).1 = Finished.
Proof.
  apply (main_finishes "generate" "get" sample_root sample_loads sample_dumps
           (sample_store "v14.1") "v14.1" sample_workflow).
  - vm_compute. reflexivity.
  - reflexivity.
  - vm_compute. reflexivity.
  - vm_compute. reflexivity.
Defined.

Lemma main_meta_raises_witness :
  sample_main (sample_store "null meta")
  = (Raised TypeError,
     <[backup_workflow sample_root := "null meta"]> (sample_store "null meta")).
Proof.
  apply (main_meta_raises "generate" "get" sample_root sample_loads sample_dumps
           (sample_store "null meta") "null meta" sample_null_meta JNull).
  - vm_compute. reflexivity.
  - reflexivity.
  - vm_compute. reflexivity.
  - vm_compute. reflexivity.
  - discriminate.
Defined.

Lemma main_rerun_backup_witness :
  exists written : string,
    (sample_main (sample_store "v14.1")).2 !! current_workflow sample_root
    = Some written
    /\ (sample_main (sample_main (sample_store "v14.1")).2).2
         !! backup_workflow sample_root = Some written.
Proof.
  apply (main_rerun_backup "generate" "get" sample_root sample_loads sample_dumps).
  vm_compute. reflexivity.
Defined.


End ScriptFacts.

(** * Facts about the slug and the two node bodies *)
Module NodeFacts.
Import JS Node JSFacts.

(** ** The third step of [generateSlug] *)

(** A pattern of one atom replaced by nothing is a filter. *)
Lemma replace_go_atom_drop (icase : bool) (total : nat) (a : atom) (s : str) :
  replace_go icase total (RAtom a) (fun _ => []) 0 s
  = List.filter (fun c => negb (atom_ok icase a c)) s.
Proof.
  induction s as [|c s IH]; [done|].
  cbn [replace_go rmatch one_match List.filter].
  destruct (atom_ok icase a c); cbn [length negb].
  - replace (S (length s) - length s)%nat with 1%nat by lia.
    by rewrite IH.
  - by rewrite IH.
Qed.

Lemma in_ranges_Exists (ranges : list (N * N)) (c : N) :
  in_ranges ranges c = true <-> Exists (fun r => (fst r <= c <= snd r)%N) ranges.
Proof.
  unfold in_ranges. induction ranges as [|r ranges IH]; simpl.
  - split; [done|]. by intros H%Exists_nil.
  - rewrite Exists_cons, orb_true_iff, andb_true_iff, !N.leb_le, IH. done.
Qed.

Lemma replace_marks (s : str) :
  replaceWith false re_marks [] s = List.filter (fun c => negb (is_mark c)) s.
Proof.
  unfold replaceWith, replaceAll, re_marks. rewrite replace_go_atom_drop.
  apply filter_ext. intros c. f_equal.
  unfold atom_ok. rewrite andb_false_l, orb_false_r, xorb_false_l.
  apply eq_true_iff_eq. rewrite in_ranges_Exists.
  change [only "\"; only "u"; only "0"; only "3"; only "0"; range "0" "\";
          only "u"; only "0"; only "3"; only "6"; only "f"]
    with [(92, 92); (117, 117); (48, 48); (51, 51); (48, 48); (48, 92);
          (117, 117); (48, 48); (51, 51); (54, 54); (102, 102)]%N.
  rewrite !Exists_cons, Exists_nil. cbn [fst snd].
  unfold is_mark. rewrite !orb_true_iff, andb_true_iff, !N.leb_le, !N.eqb_eq.
  lia.
Qed.

Lemma collapse_Forall (P : N -> Prop) (in_run : bool) (s : str) :
  P 45%N -> Forall P s -> Forall P (collapse in_run s).
Proof.
  intros Hh Hs. revert in_run.
  induction Hs as [|c s Hc _ IH]; intros in_run; [constructor|].
  cbn [collapse]. destruct (alnum c); [by constructor|].
  destruct in_run; [done|by constructor].
Qed.

Lemma skip_while_Forall (P : N -> Prop) (p : N -> bool) (s : str) :
  Forall P s -> Forall P (skip_while p s).
Proof.
  destruct (skip_while_suffix p s) as (a & Ha & _). intros H.
  rewrite Ha in H. by apply Forall_app in H as [_ H].
Qed.

Lemma strip_trailing_hyphens_Forall (P : N -> Prop) (s : str) :
  Forall P s -> Forall P (strip_trailing_hyphens s).
Proof.
  destruct (strip_trailing_hyphens_prefix s) as [b Hb]. intros H.
  rewrite Hb in H. by apply Forall_app in H as [H _].
Qed.

(** ** The slug *)
Section Slug.

Variable toLowerCase : str -> str.
Variable normalizeNFD : str -> str.

(** X17: no slug holds a digit, a u or an f (nor any other code unit from
    48 to 92): the third step of [generateSlug] removes them all from the
    lower-cased name, whatever the name. *)
Theorem generateSlug_never_mark (name : str) :
  Forall (fun c => is_mark c = false) (generateSlug toLowerCase normalizeNFD name).
Proof.
  rewrite generateSlug_steps, replace_marks.
  apply Forall_take, strip_trailing_hyphens_Forall, skip_while_Forall.
  apply collapse_Forall; [done|].
  apply Forall_forall. intros c Hc%list_elem_of_In%filter_In.
  destruct Hc as [_ Hc]. by apply negb_true_iff.
Qed.

(** X18: the slug that the node computed before the fix, without the cut
    to 50 code units, matches the pattern in full for every name. *)
Theorem enhance_slug_shape (name : str) :
  slug_shape (enhance_slug toLowerCase name) = true.
Proof.
  unfold enhance_slug. rewrite replace_non_alnum, replace_edge_hyphens.
  destruct (uncut_slug_shape (toLowerCase name)) as (H1 & H2 & _ & H4).
  by apply slug_shape_intro.
Qed.

End Slug.

(** ** The node bodies *)

Ltac key_neq :=
  let H := fresh in intros H; vm_compute in H; discriminate H.

Section Bodies.

Variable toLowerCase : str -> str.
Variable toUpperCase : str -> str.
Variable normalizeNFD : str -> str.
Variable ToString : jsval -> str.
Variable at_least : jsval -> Z -> bool.

Hypothesis toLowerCase_blank :
  forall s : str, trim s = [] -> trim (toLowerCase s) = [].

Hypothesis toUpperCase_word_start :
  toUpperCase (js "\b\w") = js "\B\W".

(** The lower-case form of the default name, and its decomposition. *)
Hypothesis toLowerCase_Unknown : toLowerCase (js "Unknown") = js "unknown".
Hypothesis normalizeNFD_unknown : normalizeNFD (js "unknown") = js "unknown".

Local Abbreviation normalize := (normalizeCorrespondent toLowerCase toUpperCase).
Local Abbreviation slug := (generateSlug toLowerCase normalizeNFD).
Local Abbreviation generate_storage_path :=
  (Node.generate_storage_path toLowerCase toUpperCase normalizeNFD ToString).
Local Abbreviation get_storage_path_id :=
  (Node.get_storage_path_id toLowerCase at_least).
Local Abbreviation enhance_generate_storage_path :=
  (Node.enhance_generate_storage_path toLowerCase ToString).
Local Abbreviation to_string := (Node.to_string ToString).

Lemma normalize_nonempty (v : value) : normalize v <> [].
Proof.
  destruct (normalize_cases toLowerCase toUpperCase v)
    as [->|[H|(name & _ & -> & H)]]; [done| |done].
  revert H. generalize (normalize v).
  apply (alias_values_ind (fun n => n <> [])); done.
Qed.

Lemma normalize_is_trimmed (v : value) : trimmed (normalize v).
Proof.
  destruct (normalize_cases toLowerCase toUpperCase v)
    as [->|[H|(name & _ & -> & _)]].
  - by apply trimmed_literal.
  - revert H. generalize (normalize v).
    apply (alias_values_ind trimmed); by apply trimmed_literal.
  - by apply strip_trimmed.
Qed.

Lemma slug_bounds (name : str) :
  (length (slug name) <= 50)%nat
  /\ Forall (fun c => slug_char c = true) (slug name).
Proof.
  rewrite generateSlug_steps.
  set (s := replaceWith false re_marks [] _).
  destruct (uncut_slug_shape s) as (H1 & _).
  split; [rewrite length_take; lia|by apply Forall_take].
Qed.

(** A name that is no string, or a blank string. *)
Lemma normalize_unusable (v : value) :
  (forall s : str, v = VString s -> trim s = []) ->
  normalize v = js "Unknown".
Proof.
  intros H. unfold normalizeCorrespondent.
  destruct v as [| | | |s|]; try done; try by rewrite orb_true_r.
  specialize (H s eq_refl).
  destruct s as [|c s]; [done|]. cbn [truthy is_string typeof negb orb].
  rewrite (toLowerCase_blank _ H), alias_match_nil.
  apply trim_nil in H.
  assert (Hbs : Forall (fun c => c <> 92%N) (c :: s)).
  { eapply Forall_impl; [exact H|]. intros d Hd ->. done. }
  rewrite (strip_no_backslash _ _ Hbs).
  assert (Hblank : trim (map punct_to_space (c :: s)) = []).
  { apply trim_nil, Forall_map. eapply Forall_impl; [exact H|].
    intros d Hd. unfold punct_to_space. by destruct (_ || _)%N. }
  by rewrite Hblank.
Qed.

(** The default name is its own canonical form, and its slug lacks the
    u. *)
Lemma normalize_Unknown : normalize (VString (js "Unknown")) = js "Unknown".
Proof.
  unfold normalizeCorrespondent.
  change (negb (truthy (VString (js "Unknown")))
          || negb (is_string (VString (js "Unknown")))) with false.
  cbv iota. rewrite toLowerCase_Unknown.
  replace (alias_match ALIASES (trim (js "unknown"))) with (@None str)
    by (vm_compute; reflexivity).
  rewrite strip_no_backslash by (vm_compute; repeat constructor; done).
  vm_compute. reflexivity.
Qed.

Lemma slug_Unknown : slug (js "Unknown") = js "nknown".
Proof.
  unfold generateSlug. rewrite toLowerCase_Unknown, normalizeNFD_unknown.
  vm_compute. reflexivity.
Qed.

(** X19: Generate Storage Path returns the item with three fields set and
    every other field as it was.  The canonical name is not empty and
    neither begins nor ends with white space; the template is the
    category, a slash, a slug of at most 50 code units that are
    lower-case letters, digits or hyphens (so the slug adds no slash),
    and the date and title part; the name is the category, a dash and the
    canonical name.  The category is 'reference-documents' when the item
    has none, and the item's own when that is a non-empty string. *)
Theorem generate_storage_path_fields (data : item) :
  exists category canonical correspondentSlug : str,
    generate_storage_path data !! js "correspondent_canonical"
    = Some (Str canonical)
    /\ generate_storage_path data !! js "storage_path_template"
       = Some (Str (category ++ js "/" ++ correspondentSlug ++ TEMPLATE_TAIL))
    /\ generate_storage_path data !! js "storage_path_name"
       = Some (Str (category ++ js " - " ++ canonical))
    /\ (forall k : str,
          k <> js "correspondent_canonical" ->
          k <> js "storage_path_template" ->
          k <> js "storage_path_name" ->
          generate_storage_path data !! k = data !! k)
    /\ canonical <> []
    /\ trimmed canonical
    /\ (length correspondentSlug <= 50)%nat
    /\ Forall (fun c => slug_char c = true) correspondentSlug
    /\ (ToBoolean (field data "storage_category") = false ->
        category = js "reference-documents")
    /\ (forall s : str,
          field data "storage_category" = Str s -> s <> [] -> category = s).
Proof.
  unfold Node.generate_storage_path. cbv zeta.
  set (category := or_else (field data "storage_category") _).
  set (raw := or_else (field data "correspondent_name") _).
  exists (to_string category), (normalize (to_value raw)),
    (slug (normalize (to_value raw))).
  split.
  { rewrite lookup_insert_ne by key_neq. rewrite lookup_insert_ne by key_neq.
    by rewrite lookup_insert_eq. }
  split.
  { rewrite lookup_insert_ne by key_neq. by rewrite lookup_insert_eq. }
  split; [by rewrite lookup_insert_eq|].
  split; [intros k H1 H2 H3; by rewrite !lookup_insert_ne|].
  split; [apply normalize_nonempty|].
  split; [apply normalize_is_trimmed|].
  destruct (slug_bounds (normalize (to_value raw))) as [Hlen Hchars].
  split; [done|]. split; [done|].
  unfold category, or_else. split.
  - by intros ->.
  - intros s -> Hs. unfold ToBoolean. destruct s; done.
Qed.

(** X20: for an item whose correspondent name is missing, falsy, not a
    string or blank, the canonical name is Unknown and the slug in the
    template is nknown: the third step of [generateSlug] removes the u. *)
Theorem generate_storage_path_unknown (data : item) :
  (forall s : str, field data "correspondent_name" = Str s -> trim s = []) ->
  generate_storage_path data !! js "correspondent_canonical"
  = Some (Str (js "Unknown"))
  /\ exists category : str,
       generate_storage_path data !! js "storage_path_template"
       = Some (Str (category ++ js "/" ++ js "nknown" ++ TEMPLATE_TAIL))
       /\ generate_storage_path data !! js "storage_path_name"
          = Some (Str (category ++ js " - " ++ js "Unknown")).
Proof.
  intros Hname.
  unfold Node.generate_storage_path. cbv zeta.
  set (category := or_else (field data "storage_category") _).
  set (raw := or_else (field data "correspondent_name") _).
  assert (Hn : normalize (to_value raw) = js "Unknown").
  { unfold raw, or_else.
    destruct (ToBoolean (field data "correspondent_name")) eqn:Et.
    - apply normalize_unusable. intros s Hs. apply Hname.
      by destruct (field data "correspondent_name"); try done; injection Hs as ->.
    - apply normalize_Unknown. }
  rewrite Hn, slug_Unknown. split.
  { rewrite lookup_insert_ne by key_neq. rewrite lookup_insert_ne by key_neq.
    by rewrite lookup_insert_eq. }
  exists (to_string category). split.
  - rewrite lookup_insert_ne by key_neq. by rewrite lookup_insert_eq.
  - by rewrite lookup_insert_eq.
Qed.

(** X21: Get Storage Path ID returns exactly when the input carries no
    error status (a status code of 400 or more) and the item of Match
    Storage Path or else the input holds a truthy id.  With an error
    status it throws even when Match Storage Path found the id. *)
Theorem get_storage_path_id_returns_iff (matchResult : item) (createResult : jsval) :
  (exists json : item, get_storage_path_id matchResult createResult = Return json)
  <-> error_status at_least createResult = false
      /\ (ToBoolean (field matchResult "storage_path_id") = true
          \/ ToBoolean createResult = true
             /\ ToBoolean (get createResult "id") = true).
Proof.
  unfold Node.get_storage_path_id.
  destruct (error_status at_least createResult).
  - split; [|by intros [? _]].
    intros [json H]. destruct (or_else _ _); try done.
    by destruct (_ || _).
  - destruct (ToBoolean (field matchResult "storage_path_id")) eqn:Em.
    + rewrite Em. simpl. split; [by eauto|by eexists].
    + destruct (ToBoolean createResult && ToBoolean (get createResult "id")) eqn:Ec.
      * apply andb_true_iff in Ec as [Hc Hid]. rewrite Hid. simpl.
        split; [by eauto|by eexists].
      * simpl. split; [by intros [? ?]|].
        intros [_ [?|[H1 H2]]]; [done|]. by rewrite H1, H2 in Ec.
Qed.

(** X22: the item that Get Storage Path ID returns is the item of Match
    Storage Path with two fields set: a truthy id, which is the one of
    Match Storage Path whenever that is truthy and the one of the input
    only otherwise, and the source, existing or created accordingly and
    never unknown.  No other field of the input reaches the result. *)
Theorem get_storage_path_id_result (matchResult : item) (createResult : jsval)
    (json : item) :
  get_storage_path_id matchResult createResult = Return json ->
  exists (id : jsval) (source : str),
    json !! js "storage_path_id" = Some id
    /\ json !! js "storage_path_source" = Some (Str source)
    /\ ToBoolean id = true
    /\ (ToBoolean (field matchResult "storage_path_id") = true ->
        id = field matchResult "storage_path_id" /\ source = js "existing")
    /\ (ToBoolean (field matchResult "storage_path_id") = false ->
        id = get createResult "id" /\ source = js "created")
    /\ (forall k : str,
          k <> js "storage_path_id" -> k <> js "storage_path_source" ->
          json !! k = matchResult !! k).
Proof.
  unfold Node.get_storage_path_id.
  destruct (error_status at_least createResult).
  { destruct (or_else _ _); try done. by destruct (_ || _). }
  destruct (ToBoolean (field matchResult "storage_path_id")) eqn:Em.
  - rewrite Em. simpl. intros [= <-].
    exists (field matchResult "storage_path_id"), (js "existing").
    split; [rewrite lookup_insert_ne by key_neq; by rewrite lookup_insert_eq|].
    split; [by rewrite lookup_insert_eq|].
    split; [done|]. split; [done|]. split; [done|].
    intros k H1 H2. by rewrite !lookup_insert_ne.
  - destruct (ToBoolean createResult && ToBoolean (get createResult "id")) eqn:Ec;
      [|done].
    apply andb_true_iff in Ec as [Hc Hid]. rewrite Hid. simpl. intros [= <-].
    exists (get createResult "id"), (js "created").
    split; [rewrite lookup_insert_ne by key_neq; by rewrite lookup_insert_eq|].
    split; [by rewrite lookup_insert_eq|].
    split; [done|]. split; [done|]. split; [done|].
    intros k H1 H2. by rewrite !lookup_insert_ne.
Qed.

(** X24: the node before the fix throws on an item whose correspondent
    name is truthy and not a string, where the node after the fix returns
    the canonical name Unknown; on every other item it returns, with a
    slug in the template that matches the pattern in full. *)
Theorem enhance_generate_storage_path_cases (data : item) :
  (enhance_generate_storage_path data = None
   <-> ToBoolean (field data "correspondent_name") = true
       /\ forall s : str, field data "correspondent_name" <> Str s)
  /\ (forall json : item,
        enhance_generate_storage_path data = Some json ->
        exists category name : str,
          json !! js "storage_path_template"
          = Some (Str (category ++ js "/" ++ enhance_slug toLowerCase name
                       ++ TEMPLATE_TAIL))
          /\ slug_shape (enhance_slug toLowerCase name) = true
          /\ json !! js "storage_path_name"
             = Some (Str (category ++ js " - " ++ name)))
  /\ (ToBoolean (field data "correspondent_name") = true ->
      (forall s : str, field data "correspondent_name" <> Str s) ->
      generate_storage_path data !! js "correspondent_canonical"
      = Some (Str (js "Unknown"))).
Proof.
  split; [|split].
  - unfold Node.enhance_generate_storage_path, or_else.
    destruct (ToBoolean (field data "correspondent_name")) eqn:Et.
    + destruct (field data "correspondent_name") as [| | | |s| |] eqn:Ef;
        try (split; [by intros _; split|done]).
      split; [done|]. intros [_ H]. by destruct (H s).
    + split; [done|]. by intros [? _].
  - intros json. unfold Node.enhance_generate_storage_path.
    destruct (or_else (field data "correspondent_name") _) as [| | | |name| |];
      try done.
    intros [= <-]. eexists _, name.
    split; [rewrite lookup_insert_ne by key_neq; by rewrite lookup_insert_eq|].
    split; [|by rewrite lookup_insert_eq].
    unfold enhance_slug. rewrite replace_non_alnum, replace_edge_hyphens.
    destruct (uncut_slug_shape (toLowerCase name)) as (H1 & H2 & _ & H4).
    by apply slug_shape_intro.
  - intros Ht Hs. unfold Node.generate_storage_path. cbv zeta.
    rewrite lookup_insert_ne by key_neq. rewrite lookup_insert_ne by key_neq.
    rewrite lookup_insert_eq. do 2 f_equal.
    apply normalize_unusable. unfold or_else. rewrite Ht.
    intros s H. destruct (field data "correspondent_name"); try done.
    by destruct (Hs s0).
Qed.

End Bodies.

(** ** The facts above on sample items, with the Latin-1 runtime *)

Lemma normalize_without_backslash_witness :
  Latin1.normalizeCorrespondent (VString (js " Acme GmbH, Wien. "))
  = js "Acme GmbH  Wien".
Proof.
  apply (normalize_without_backslash Latin1.toLowerCase Latin1.toUpperCase
           (js " Acme GmbH, Wien. ")).
  - vm_compute. repeat constructor; discriminate.
  - vm_compute. reflexivity.
Defined.

Lemma generate_storage_path_fields_witness :
  exists category canonical correspondentSlug : str,
    Node.generate_storage_path Latin1.toLowerCase Latin1.toUpperCase
      Latin1.normalizeNFD sample_ToString sample_data
      !! js "correspondent_canonical" = Some (Str canonical)
    /\ Node.generate_storage_path Latin1.toLowerCase Latin1.toUpperCase
         Latin1.normalizeNFD sample_ToString sample_data
         !! js "storage_path_template"
       = Some (Str (category ++ js "/" ++ correspondentSlug ++ TEMPLATE_TAIL))
    /\ Node.generate_storage_path Latin1.toLowerCase Latin1.toUpperCase
         Latin1.normalizeNFD sample_ToString sample_data
         !! js "storage_path_name"
       = Some (Str (category ++ js " - " ++ canonical))
    /\ (forall k : str,
          k <> js "correspondent_canonical" ->
          k <> js "storage_path_template" ->
          k <> js "storage_path_name" ->
          Node.generate_storage_path Latin1.toLowerCase Latin1.toUpperCase
            Latin1.normalizeNFD sample_ToString sample_data !! k
          = sample_data !! k)
    /\ canonical <> []
    /\ trimmed canonical
    /\ (length correspondentSlug <= 50)%nat
    /\ Forall (fun c => slug_char c = true) correspondentSlug
    /\ (ToBoolean (field sample_data "storage_category") = false ->
        category = js "reference-documents")
    /\ (forall s : str,
          field sample_data "storage_category" = Str s -> s <> [] ->
          category = s).
Proof.
  apply (generate_storage_path_fields Latin1.toLowerCase Latin1.toUpperCase
           Latin1.normalizeNFD sample_ToString).
  reflexivity.
Defined.

Lemma generate_storage_path_unknown_witness :
  Node.generate_storage_path Latin1.toLowerCase Latin1.toUpperCase
    Latin1.normalizeNFD sample_ToString sample_blank
    !! js "correspondent_canonical" = Some (Str (js "Unknown"))
  /\ exists category : str,
       Node.generate_storage_path Latin1.toLowerCase Latin1.toUpperCase
         Latin1.normalizeNFD sample_ToString sample_blank
         !! js "storage_path_template"
       = Some (Str (category ++ js "/" ++ js "nknown" ++ TEMPLATE_TAIL))
       /\ Node.generate_storage_path Latin1.toLowerCase Latin1.toUpperCase
            Latin1.normalizeNFD sample_ToString sample_blank
            !! js "storage_path_name"
          = Some (Str (category ++ js " - " ++ js "Unknown")).
Proof.
  apply (generate_storage_path_unknown Latin1.toLowerCase Latin1.toUpperCase
           Latin1.normalizeNFD sample_ToString Latin1_toLowerCase_blank).
  - reflexivity.
  - reflexivity.
  - intros s. vm_compute. intros [= <-]. reflexivity.
Defined.

Lemma get_storage_path_id_returns_iff_witness :
  exists json : item,
    Node.get_storage_path_id Latin1.toLowerCase sample_at_least
      sample_match sample_created = Return json.
Proof.
  apply (get_storage_path_id_returns_iff Latin1.toLowerCase sample_at_least).
  split; [reflexivity|]. left. vm_compute. reflexivity.
Defined.

Lemma get_storage_path_id_result_witness :
  exists (id : jsval) (source : str),
    sample_returned !! js "storage_path_id" = Some id
    /\ sample_returned !! js "storage_path_source" = Some (Str source)
    /\ ToBoolean id = true
    /\ (ToBoolean (field sample_match "storage_path_id") = true ->
        id = field sample_match "storage_path_id" /\ source = js "existing")
    /\ (ToBoolean (field sample_match "storage_path_id") = false ->
        id = get sample_created "id" /\ source = js "created")
    /\ (forall k : str,
          k <> js "storage_path_id" -> k <> js "storage_path_source" ->
          sample_returned !! k = sample_match !! k).
Proof.
  apply (get_storage_path_id_result Latin1.toLowerCase sample_at_least).
  vm_compute. reflexivity.
Defined.

Lemma enhance_generate_storage_path_cases_witness :
  Node.enhance_generate_storage_path Latin1.toLowerCase sample_ToString
    sample_numeric = None
  /\ Node.generate_storage_path Latin1.toLowerCase Latin1.toUpperCase
       Latin1.normalizeNFD sample_ToString sample_numeric
       !! js "correspondent_canonical" = Some (Str (js "Unknown")).
Proof.
  destruct (enhance_generate_storage_path_cases Latin1.toLowerCase
              Latin1.toUpperCase Latin1.normalizeNFD sample_ToString
              Latin1_toLowerCase_blank sample_numeric) as (H1 & _ & H3).
  assert (Ht : ToBoolean (field sample_numeric "correspondent_name") = true)
    by (vm_compute; reflexivity).
  assert (Hs : forall s : str, field sample_numeric "correspondent_name" <> Str s)
    by (intros s; vm_compute; discriminate).
  split; [by apply H1|by apply H3].
Defined.

End NodeFacts.
